(** * Hospital emergency-room simulation: admission queue, resource
      semaphores and the threads that use them.

    Shallow embedding of [Simulation.cpp].  The sequential pieces
    ([ComparePatient], [Semaphore]) are plain functions; the threads
    ([treatPatient], [patientArrival], [dynamicResourceGeneration],
    [staffBehavior], [main]) are program-counter machines whose atomic steps
    are interleaved by an explicit schedule. *)

From Stdlib Require Import ZArith List Bool String Lia.
From Stdlib Require Import Permutation Sorted DecimalString.
Import ListNotations.

Local Open Scope string_scope.
Local Open Scope Z_scope.
Local Open Scope list_scope.

(* ================================================================== *)
(** ** Machine integers *)

(** [int] is a 32-bit signed integer.  Overflow of [++]/[--] on a signed
    [int] has no defined meaning in C++; the model takes the two's-complement
    result. *)
Definition INT_MIN : Z := - 2 ^ 31.
Definition INT_MAX : Z := 2 ^ 31 - 1.

Definition int_range (z : Z) : Prop := INT_MIN <= z <= INT_MAX.

Definition int_wrap (z : Z) : Z := (z + 2 ^ 31) mod 2 ^ 32 - 2 ^ 31.

Definition int_incr (z : Z) : Z := int_wrap (z + 1).
Definition int_decr (z : Z) : Z := int_wrap (z - 1).

(* ================================================================== *)
(** ** Patients and the queue comparator *)

(** [enum Priority { HIGH, MEDIUM, LOW }]: enumerators 0, 1, 2. *)
Inductive Priority : Set := HIGH | MEDIUM | LOW.

Definition priority_value (p : Priority) : Z :=
  match p with HIGH => 0 | MEDIUM => 1 | LOW => 2 end.

(** [Priority(rand() % 3)] on a value in 0..2. *)
Definition Priority_of_int (z : Z) : Priority :=
  if z =? 0 then HIGH else if z =? 1 then MEDIUM else LOW.

Record Patient : Set := mkPatient
  { id : Z;
    name : string;
    priority : Priority }.

(** [ComparePatient::operator()]. *)
Definition ComparePatient (a b : Patient) : bool :=
  if priority_value (priority a) =? priority_value (priority b)
  then id a >? id b
  else priority_value (priority a) >? priority_value (priority b).

Definition priorityToString (p : Priority) : string :=
  match p with HIGH => "High" | MEDIUM => "Medium" | LOW => "Low" end.

(* ================================================================== *)
(** ** [std::priority_queue<shared_ptr<Patient>, vector<...>, ComparePatient>]

    The container adaptor is library code; it is modelled by its contract:
    the elements are kept in a vector, [top] is an element that the
    comparator orders before no other element, [pop] removes that element.
    Among elements the comparator cannot tell apart the scan below keeps the
    one nearest the front.  The ordering theorem does not depend on that
    choice, and [pq_top_determined] shows there is no choice to make when
    the queued patients differ in priority or id. *)
Definition priority_queue : Set := list Patient.

Definition pq_empty (q : priority_queue) : bool :=
  match q with [] => true | _ :: _ => false end.

Definition pq_push (x : Patient) (q : priority_queue) : priority_queue :=
  q ++ [x].

Fixpoint pq_extract (q : priority_queue) : option (Patient * priority_queue) :=
  match q with
  | [] => None
  | x :: r =>
      match pq_extract r with
      | None => Some (x, [])
      | Some (m, r') =>
          if ComparePatient x m then Some (m, x :: r') else Some (x, r)
      end
  end.

Definition pq_top (q : priority_queue) : option Patient :=
  option_map fst (pq_extract q).

Definition pq_pop (q : priority_queue) : priority_queue :=
  match pq_extract q with
  | Some (_, r) => r
  | None => []
  end.

(** Enqueue a whole arrival sequence, then dequeue until empty. *)
Definition enqueue_all (l : list Patient) : priority_queue :=
  fold_left (fun q x => pq_push x q) l [].

Fixpoint dequeue_n (n : nat) (q : priority_queue) : list Patient :=
  match n with
  | O => []
  | S n' =>
      match pq_top q with
      | Some x => x :: dequeue_n n' (pq_pop q)
      | None => []
      end
  end.

Definition dequeue_all (q : priority_queue) : list Patient :=
  dequeue_n (List.length q) q.

(** The order the spec asks for: priority first (HIGH before MEDIUM before
    LOW), then the arrival number, which the code keeps in [id]. *)
Definition served_no_later (a b : Patient) : Prop :=
  priority_value (priority a) < priority_value (priority b) \/
  (priority a = priority b /\ id a <= id b).

(** The pair the comparator looks at. *)
Definition queue_key (p : Patient) : Z * Z :=
  (priority_value (priority p), id p).

(* ================================================================== *)
(** ** [class Semaphore] *)

Record Semaphore : Set := mkSemaphore { count : Z }.

(** [acquire]: [None] while the caller stays blocked in [cv.wait]. *)
Definition acquire (s : Semaphore) : option Semaphore :=
  if count s >? 0 then Some (mkSemaphore (int_decr (count s))) else None.

Definition release (s : Semaphore) : Semaphore :=
  mkSemaphore (int_incr (count s)).

Definition try_acquire (s : Semaphore) : bool * Semaphore :=
  if count s >? 0 then (true, mkSemaphore (int_decr (count s)))
  else (false, s).

Definition available (s : Semaphore) : Z := count s.

(** [n] times [acquire(); release();] on one thread. *)
Fixpoint acquire_release_pairs (n : nat) (s : Semaphore) : option Semaphore :=
  match n with
  | O => Some s
  | S n' =>
      match acquire s with
      | Some s1 => acquire_release_pairs n' (release s1)
      | None => None
      end
  end.

(* ================================================================== *)
(** ** Shared state of the process *)

Inductive Resource : Set := Doctors | Nurses | ExamRooms | Ventilators.

Inductive Thread : Set :=
  | DoctorThread (i : nat)     (* doctorThreads[i], running treatPatient(i + 1) *)
  | PatientThread              (* patientArrival *)
  | ResourceThread             (* dynamicResourceGeneration *)
  | StaffBehaviorThread        (* staffBehavior *)
  | MainThread.

(** What a thread did in one atomic step.  The steps append these to
    [history]: [Displayed] and [Printed] are the lines written to [cout],
    the others only record the calls made, so that statements about the
    order of calls can be made; no step ever reads the history. *)
Inductive Event : Set :=
  | Pushed (p : Patient)
  | Dequeued (p : Patient)
  | Acquired (r : Resource)
  | TryAcquired (r : Resource) (ok : bool)
  | Released (r : Resource)
  | Slept (seconds : Z)
  | Displayed (entity : string) (ident : Z) (label prio status : string)
              (doctors nurses rooms ventilators : Z)
  | Printed (line : string)
  | Stopped.

Record Shared : Set := mkShared
  { patientQueue : priority_queue;
    queueMutex : bool;                 (* true while a thread owns it *)
    doctorsAvailable : Semaphore;
    nursesAvailable : Semaphore;
    examRoomsAvailable : Semaphore;
    ventilatorsAvailable : Semaphore;
    isRunning : bool;
    history : list (Thread * Event) }.

Definition pool (r : Resource) (s : Shared) : Semaphore :=
  match r with
  | Doctors => doctorsAvailable s
  | Nurses => nursesAvailable s
  | ExamRooms => examRoomsAvailable s
  | Ventilators => ventilatorsAvailable s
  end.

Definition with_pool (r : Resource) (sem : Semaphore) (s : Shared) : Shared :=
  match r with
  | Doctors =>
      mkShared (patientQueue s) (queueMutex s) sem (nursesAvailable s)
        (examRoomsAvailable s) (ventilatorsAvailable s) (isRunning s) (history s)
  | Nurses =>
      mkShared (patientQueue s) (queueMutex s) (doctorsAvailable s) sem
        (examRoomsAvailable s) (ventilatorsAvailable s) (isRunning s) (history s)
  | ExamRooms =>
      mkShared (patientQueue s) (queueMutex s) (doctorsAvailable s)
        (nursesAvailable s) sem (ventilatorsAvailable s) (isRunning s) (history s)
  | Ventilators =>
      mkShared (patientQueue s) (queueMutex s) (doctorsAvailable s)
        (nursesAvailable s) (examRoomsAvailable s) sem (isRunning s) (history s)
  end.

Definition with_queue (q : priority_queue) (s : Shared) : Shared :=
  mkShared q (queueMutex s) (doctorsAvailable s) (nursesAvailable s)
    (examRoomsAvailable s) (ventilatorsAvailable s) (isRunning s) (history s).

Definition with_mutex (b : bool) (s : Shared) : Shared :=
  mkShared (patientQueue s) b (doctorsAvailable s) (nursesAvailable s)
    (examRoomsAvailable s) (ventilatorsAvailable s) (isRunning s) (history s).

Definition with_running (b : bool) (s : Shared) : Shared :=
  mkShared (patientQueue s) (queueMutex s) (doctorsAvailable s) (nursesAvailable s)
    (examRoomsAvailable s) (ventilatorsAvailable s) b (history s).

Definition record (t : Thread) (evs : list Event) (s : Shared) : Shared :=
  mkShared (patientQueue s) (queueMutex s) (doctorsAvailable s) (nursesAvailable s)
    (examRoomsAvailable s) (ventilatorsAvailable s) (isRunning s)
    (history s ++ map (pair t) evs).

(** Calls on the global semaphores, as a thread [t] makes them. *)
Definition do_acquire (t : Thread) (r : Resource) (s : Shared) : option Shared :=
  match acquire (pool r s) with
  | Some sem => Some (record t [Acquired r] (with_pool r sem s))
  | None => None
  end.

Definition do_release (t : Thread) (r : Resource) (s : Shared) : Shared :=
  record t [Released r] (with_pool r (release (pool r s)) s).

Definition do_try_acquire (t : Thread) (r : Resource) (s : Shared) : bool * Shared :=
  let (ok, sem) := try_acquire (pool r s) in
  (ok, record t [TryAcquired r ok] (with_pool r sem s)).

(** [displayState]: one table row with the four [available()] readings,
    taken here in a single step. *)
Definition displayState (t : Thread) (entity : string) (ident : Z)
    (label prio status : string) (s : Shared) : Shared :=
  record t [Displayed entity ident label prio status
              (available (doctorsAvailable s)) (available (nursesAvailable s))
              (available (examRoomsAvailable s)) (available (ventilatorsAvailable s))] s.

(** [addPatient]: the whole body runs under [queueMutex]; it can start only
    when the mutex is free. *)
Definition addPatient (t : Thread) (ident : Z) (label : string) (prio : Priority)
    (s : Shared) : option Shared :=
  if queueMutex s then None
  else
    let newPatient := mkPatient ident label prio in
    let s1 := record t [Pushed newPatient]
                (with_queue (pq_push newPatient (patientQueue s)) s) in
    Some (displayState t "Patient" ident label (priorityToString prio) "Arrived" s1).

(* ================================================================== *)
(** ** [treatPatient(doctorId)] *)

Inductive DoctorPC : Set :=
  | AtLoopHead          (* while (isRunning) *)
  | AtWait              (* lock; cv.wait; shutdown check; top; pop; unlock *)
  | AtAcquireDoctor
  | AtAcquireNurse
  | AtAcquireRoom
  | AtVentilator        (* ventilatorAllocated = false; if (HIGH) try_acquire *)
  | AtDisplayTreating
  | AtTreating          (* sleep_for(2s) *)
  | AtReleaseVentilator
  | AtReleaseDoctor
  | AtReleaseNurse
  | AtReleaseRoom
  | AtDisplayFinished
  | DoctorReturned.

Record Doctor : Set := mkDoctor
  { doctor_pc : DoctorPC;
    currentPatient : option Patient;   (* nullptr = None *)
    ventilatorAllocated : bool }.

Definition is_HIGH (p : Priority) : bool :=
  priority_value p =? priority_value HIGH.

(** One atomic step of thread [doctorThreads[i]]; [None] when the thread is
    blocked (mutex taken, wait predicate false, semaphore at zero) or has
    returned.  A waiting thread may go on as soon as its predicate holds. *)
Definition treatPatient (i : nat) (d : Doctor) (s : Shared) : option (Doctor * Shared) :=
  let me := DoctorThread i in
  let doctorId := Z.of_nat i + 1 in
  let goto pc := mkDoctor pc (currentPatient d) (ventilatorAllocated d) in
  match doctor_pc d with
  | AtLoopHead =>
      if isRunning s then Some (mkDoctor AtWait None (ventilatorAllocated d), s)
      else Some (goto DoctorReturned, s)
  | AtWait =>
      if queueMutex s then None
      else if negb (pq_empty (patientQueue s)) || negb (isRunning s) then
        if negb (isRunning s) && pq_empty (patientQueue s)
        then Some (goto DoctorReturned, s)
        else
          match pq_top (patientQueue s) with
          | Some p =>
              Some (mkDoctor AtAcquireDoctor (Some p) (ventilatorAllocated d),
                    record me [Dequeued p] (with_queue (pq_pop (patientQueue s)) s))
          | None => None
          end
      else None
  | AtAcquireDoctor =>
      match do_acquire me Doctors s with
      | Some s' => Some (goto AtAcquireNurse, s')
      | None => None
      end
  | AtAcquireNurse =>
      match do_acquire me Nurses s with
      | Some s' => Some (goto AtAcquireRoom, s')
      | None => None
      end
  | AtAcquireRoom =>
      match do_acquire me ExamRooms s with
      | Some s' => Some (goto AtVentilator, s')
      | None => None
      end
  | AtVentilator =>
      match currentPatient d with
      | Some p =>
          if is_HIGH (priority p) then
            let (ok, s') := do_try_acquire me Ventilators s in
            if ok then Some (mkDoctor AtDisplayTreating (Some p) true, s')
            else Some (mkDoctor AtDisplayTreating (Some p) false,
                       record me [Printed ("Ventilator unavailable for " ++ name p)%string] s')
          else Some (mkDoctor AtDisplayTreating (Some p) false, s)
      | None => None
      end
  | AtDisplayTreating =>
      match currentPatient d with
      | Some p =>
          Some (goto AtTreating,
                displayState me "Doctor" doctorId (name p)
                  (priorityToString (priority p)) "Treating..." s)
      | None => None
      end
  | AtTreating => Some (goto AtReleaseVentilator, record me [Slept 2] s)
  | AtReleaseVentilator =>
      if ventilatorAllocated d
      then Some (goto AtReleaseDoctor, do_release me Ventilators s)
      else Some (goto AtReleaseDoctor, s)
  | AtReleaseDoctor => Some (goto AtReleaseNurse, do_release me Doctors s)
  | AtReleaseNurse => Some (goto AtReleaseRoom, do_release me Nurses s)
  | AtReleaseRoom => Some (goto AtDisplayFinished, do_release me ExamRooms s)
  | AtDisplayFinished =>
      match currentPatient d with
      | Some p =>
          Some (goto AtLoopHead,
                displayState me "Doctor" doctorId (name p)
                  (priorityToString (priority p)) "Finished" s)
      | None => None
      end
  | DoctorReturned => None
  end.

(* ================================================================== *)
(** ** [patientArrival] *)

Inductive ArrivalPC : Set :=
  | ArrLoopHead | ArrSleep | ArrAdd | ArrReturned.

Record Arrival : Set := mkArrival
  { arrival_pc : ArrivalPC;
    patientId : Z }.

Definition to_string (z : Z) : string := NilZero.string_of_int (Z.to_int z).

(** [rnd] is what [rand()] returns in this step (never negative).  The two
    uses of [patientId] in the call to [addPatient] are unsequenced:
    [name_after_increment] says whether the name is built from the
    incremented counter. *)
Definition patientArrival (rnd : Z) (name_after_increment : bool)
    (a : Arrival) (s : Shared) : option (Arrival * Shared) :=
  match arrival_pc a with
  | ArrLoopHead =>
      if isRunning s then Some (mkArrival ArrSleep (patientId a), s)
      else Some (mkArrival ArrReturned (patientId a), s)
  | ArrSleep =>
      if rnd <? 0 then None
      else Some (mkArrival ArrAdd (patientId a),
                 record PatientThread [Slept (Z.rem rnd 5 + 1)] s)
  | ArrAdd =>
      if rnd <? 0 then None
      else
        let ident := patientId a in
        let next := int_incr ident in
        let label := ("Patient_" ++ to_string (if name_after_increment then next else ident))%string in
        match addPatient PatientThread ident label (Priority_of_int (Z.rem rnd 3)) s with
        | Some s' => Some (mkArrival ArrLoopHead next, s')
        | None => None
        end
  | ArrReturned => None
  end.

(* ================================================================== *)
(** ** [dynamicResourceGeneration] *)

Inductive ResourcePC : Set :=
  | ResLoopHead | ResSleep | ResLock | ResAddDoctors | ResAddNurses
  | ResAddRooms | ResReport | ResReturned.

Record ResourceGen : Set := mkResourceGen
  { resource_pc : ResourcePC;
    newDoctors : Z;
    newNurses : Z;
    newExamRooms : Z }.

(** [for (int i = 0; i < n; ++i) sem.release();] *)
Definition release_times (t : Thread) (r : Resource) (n : Z) (s : Shared) : Shared :=
  Z.iter n (do_release t r) s.

Definition dynamicResourceGeneration (r1 r2 r3 : Z)
    (g : ResourceGen) (s : Shared) : option (ResourceGen * Shared) :=
  let goto pc := mkResourceGen pc (newDoctors g) (newNurses g) (newExamRooms g) in
  match resource_pc g with
  | ResLoopHead =>
      if isRunning s then Some (goto ResSleep, s) else Some (goto ResReturned, s)
  | ResSleep => Some (goto ResLock, record ResourceThread [Slept 10] s)
  | ResLock =>
      if queueMutex s then None
      else if (r1 <? 0) || (r2 <? 0) || (r3 <? 0) then None
      else Some (mkResourceGen ResAddDoctors (Z.rem r1 2) (Z.rem r2 2) (Z.rem r3 2),
                 with_mutex true s)
  | ResAddDoctors =>
      Some (goto ResAddNurses, release_times ResourceThread Doctors (newDoctors g) s)
  | ResAddNurses =>
      Some (goto ResAddRooms, release_times ResourceThread Nurses (newNurses g) s)
  | ResAddRooms =>
      Some (goto ResReport, release_times ResourceThread ExamRooms (newExamRooms g) s)
  | ResReport =>
      let s1 :=
        if (newDoctors g >? 0) || (newNurses g >? 0) || (newExamRooms g >? 0)
        then record ResourceThread
               [Printed ("Additional Resources: " ++ to_string (newDoctors g)
                         ++ " doctor(s), " ++ to_string (newNurses g)
                         ++ " nurse(s), and " ++ to_string (newExamRooms g)
                         ++ " exam room(s) added due to shift changes or emergencies.")%string] s
        else s in
      Some (goto ResLoopHead, with_mutex false s1)
  | ResReturned => None
  end.

(* ================================================================== *)
(** ** [staffBehavior] *)

Inductive StaffPC : Set :=
  | StaffLoopHead | StaffSleep | StaffLock | StaffTry | StaffBreak
  | StaffRelease | StaffUnlock | StaffReturned.

Definition staffBehavior (pc : StaffPC) (s : Shared) : option (StaffPC * Shared) :=
  match pc with
  | StaffLoopHead =>
      if isRunning s then Some (StaffSleep, s) else Some (StaffReturned, s)
  | StaffSleep => Some (StaffLock, record StaffBehaviorThread [Slept 20] s)
  | StaffLock =>
      if queueMutex s then None else Some (StaffTry, with_mutex true s)
  | StaffTry =>
      let (ok, s') := do_try_acquire StaffBehaviorThread Doctors s in
      if ok then Some (StaffBreak, s') else Some (StaffUnlock, s')
  | StaffBreak => Some (StaffRelease, record StaffBehaviorThread [Slept 5] s)
  | StaffRelease =>
      Some (StaffUnlock,
            record StaffBehaviorThread
              [Printed "A doctor has returned from a break, increasing availability."]
              (do_release StaffBehaviorThread Doctors s))
  | StaffUnlock => Some (StaffLoopHead, with_mutex false s)
  | StaffReturned => None
  end.

(* ================================================================== *)
(** ** [main] and the whole process *)

Inductive MainPC : Set :=
  | MainSleeping      (* threads started; sleep_for(30s) *)
  | MainJoining       (* isRunning = false done; joining *)
  | MainReturned.

Record World : Set := mkWorld
  { shared : Shared;
    doctorThreads : list Doctor;
    patientThread : Arrival;
    resourceThread : ResourceGen;
    staffBehaviorThread : StaffPC;
    mainThread : MainPC }.

Definition doctor_returned (d : Doctor) : bool :=
  match doctor_pc d with DoctorReturned => true | _ => false end.

Definition all_joined (w : World) : bool :=
  forallb doctor_returned (doctorThreads w)
  && match arrival_pc (patientThread w) with ArrReturned => true | _ => false end
  && match resource_pc (resourceThread w) with ResReturned => true | _ => false end
  && match staffBehaviorThread w with StaffReturned => true | _ => false end.

Definition main (w : World) : option World :=
  match mainThread w with
  | MainSleeping =>
      Some (mkWorld (record MainThread [Stopped] (with_running false (shared w)))
              (doctorThreads w) (patientThread w) (resourceThread w)
              (staffBehaviorThread w) MainJoining)
  | MainJoining =>
      if all_joined w then
        Some (mkWorld
                (record MainThread [Printed "Hospital Emergency Room Simulation Ended."]
                   (shared w))
                (doctorThreads w) (patientThread w) (resourceThread w)
                (staffBehaviorThread w) MainReturned)
      else None
  | MainReturned => None
  end.

Fixpoint replace_nth {A : Type} (i : nat) (x : A) (l : list A) : list A :=
  match l, i with
  | [], _ => []
  | _ :: r, O => x :: r
  | y :: r, S i' => y :: replace_nth i' x r
  end.

(** A schedule names, step by step, the thread that runs next and what
    [rand()] gives it. *)
Inductive Action : Set :=
  | RunDoctor (i : nat)
  | RunPatientArrival (rnd : Z) (name_after_increment : bool)
  | RunResourceGeneration (r1 r2 r3 : Z)
  | RunStaffBehavior
  | RunMain.

Definition step (a : Action) (w : World) : option World :=
  match a with
  | RunDoctor i =>
      match nth_error (doctorThreads w) i with
      | Some d =>
          match treatPatient i d (shared w) with
          | Some (d', s') =>
              Some (mkWorld s' (replace_nth i d' (doctorThreads w)) (patientThread w)
                      (resourceThread w) (staffBehaviorThread w) (mainThread w))
          | None => None
          end
      | None => None
      end
  | RunPatientArrival rnd b =>
      match patientArrival rnd b (patientThread w) (shared w) with
      | Some (a', s') =>
          Some (mkWorld s' (doctorThreads w) a' (resourceThread w)
                  (staffBehaviorThread w) (mainThread w))
      | None => None
      end
  | RunResourceGeneration r1 r2 r3 =>
      match dynamicResourceGeneration r1 r2 r3 (resourceThread w) (shared w) with
      | Some (g', s') =>
          Some (mkWorld s' (doctorThreads w) (patientThread w) g'
                  (staffBehaviorThread w) (mainThread w))
      | None => None
      end
  | RunStaffBehavior =>
      match staffBehavior (staffBehaviorThread w) (shared w) with
      | Some (pc', s') =>
          Some (mkWorld s' (doctorThreads w) (patientThread w) (resourceThread w)
                  pc' (mainThread w))
      | None => None
      end
  | RunMain => main w
  end.

Fixpoint run (sched : list Action) (w : World) : option World :=
  match sched with
  | [] => Some w
  | a :: rest =>
      match step a w with
      | Some w' => run rest w'
      | None => None
      end
  end.

(** [setw(n) << s]: right-aligned in a field of [n] characters. *)
Definition setw (n : nat) (s : string) : string :=
  (String.concat "" (repeat " " (n - String.length s)) ++ s)%string.

Definition table_header : string :=
  (setw 10 "Entity" ++ setw 10 "ID" ++ setw 20 "Name" ++ setw 15 "Priority"
   ++ setw 20 "Status" ++ setw 10 "Doctors" ++ setw 10 "Nurses"
   ++ setw 10 "Rooms" ++ setw 10 "Ventilators")%string.

(** The globals as initialised, with what [main] has printed when the
    threads exist. *)
Definition initial_shared : Shared :=
  mkShared [] false (mkSemaphore 3) (mkSemaphore 2) (mkSemaphore 2) (mkSemaphore 1)
    true
    [(MainThread, Printed "Hospital Emergency Room Simulation Started...");
     (MainThread, Printed table_header);
     (MainThread, Printed (String.concat "" (repeat "-" 120)))].

Definition initial_world : World :=
  mkWorld initial_shared
    (map (fun _ => mkDoctor AtLoopHead None false) (seq 0 3))
    (mkArrival ArrLoopHead 1)
    (mkResourceGen ResLoopHead 0 0 0)
    StaffLoopHead
    MainSleeping.

Definition reachable (w : World) : Prop :=
  exists sched, run sched initial_world = Some w.

(* ================================================================== *)
(** ** Schedules used as examples *)

(** One pass of [patientArrival]: loop test, sleep, [addPatient]. *)
Definition arrive (rnd : Z) : list Action :=
  repeat (RunPatientArrival rnd false) 3.

(** doctorThreads[0] waits, a HIGH patient arrives and is treated. *)
Definition one_treatment_schedule : list Action :=
  [RunDoctor 0] ++ arrive 0 ++ repeat (RunDoctor 0) 12.

(** Three patients occupy the three doctor threads (the third blocks: both
    nurses are taken) and a fourth arrives. *)
Definition before_shutdown : list Action :=
  [RunDoctor 0; RunDoctor 1; RunDoctor 2]
  ++ arrive 0 ++ repeat (RunDoctor 0) 6
  ++ arrive 2 ++ repeat (RunDoctor 1) 6
  ++ arrive 1 ++ repeat (RunDoctor 2) 2
  ++ arrive 0.

(** The doctor threads finish what they hold and test [isRunning] again. *)
Definition after_shutdown : list Action :=
  repeat (RunDoctor 0) 7 ++ repeat (RunDoctor 2) 11 ++ repeat (RunDoctor 1) 7.

Definition shutdown_schedule : list Action :=
  before_shutdown ++ [RunMain] ++ after_shutdown.

Definition dequeued_patients (h : list (Thread * Event)) : list Patient :=
  flat_map (fun te => match snd te with Dequeued p => [p] | _ => [] end) h.

(** Doctor threads blocked in [cv.wait]: after shutdown each of them can
    still take one patient. *)
Definition waiting (d : Doctor) : nat :=
  match doctor_pc d with AtWait => 1 | _ => 0 end.

Fixpoint waiting_doctors (l : list Doctor) : nat :=
  match l with
  | [] => O
  | d :: r => (waiting d + waiting_doctors r)%nat
  end.

Definition dequeue_potential (w : World) : nat :=
  (List.length (dequeued_patients (history (shared w)))
   + waiting_doctors (doctorThreads w))%nat.

(** [n] consecutive steps of one doctor thread, nothing else running. *)
Fixpoint doctor_steps (n : nat) (i : nat) (d : Doctor) (s : Shared)
  : option (Doctor * Shared) :=
  match n with
  | O => Some (d, s)
  | S n' =>
      match treatPatient i d s with
      | Some (d', s') => doctor_steps n' i d' s'
      | None => None
      end
  end.

Fixpoint staff_steps (n : nat) (pc : StaffPC) (s : Shared)
  : option (StaffPC * Shared) :=
  match n with
  | O => Some (pc, s)
  | S n' =>
      match staffBehavior pc s with
      | Some (pc', s') => staff_steps n' pc' s'
      | None => None
      end
  end.

(** The spec's degraded-service scenario: pools of one doctor, one nurse,
    one exam room and no ventilator, one doctor thread waiting, one HIGH
    patient queued. *)
Definition degraded_service_start : World :=
  mkWorld
    (mkShared [mkPatient 1 "Patient_1" HIGH] false (mkSemaphore 1)
       (mkSemaphore 1) (mkSemaphore 1) (mkSemaphore 0) true [])
    [mkDoctor AtWait None false]
    (mkArrival ArrLoopHead 2)
    (mkResourceGen ResLoopHead 0 0 0)
    StaffLoopHead
    MainSleeping.

(** The same scenario four steps later, at the ventilator test. *)
Definition degraded_service_world : World :=
  mkWorld
    (mkShared [] false (mkSemaphore 0) (mkSemaphore 0) (mkSemaphore 0)
       (mkSemaphore 0) true
       (map (pair (DoctorThread 0))
          [Dequeued (mkPatient 1 "Patient_1" HIGH); Acquired Doctors;
           Acquired Nurses; Acquired ExamRooms]))
    [mkDoctor AtVentilator (Some (mkPatient 1 "Patient_1" HIGH)) false]
    (mkArrival ArrLoopHead 2)
    (mkResourceGen ResLoopHead 0 0 0)
    StaffLoopHead
    MainSleeping.

(** What [staffBehavior] keeps true of the pools between two loop tests,
    [s0] being the state at the first. *)
Definition staff_inv (s0 : Shared) (pc : StaffPC) (s : Shared) : Prop :=
  nursesAvailable s = nursesAvailable s0
  /\ examRoomsAvailable s = examRoomsAvailable s0
  /\ ventilatorsAvailable s = ventilatorsAvailable s0
  /\ patientQueue s = patientQueue s0
  /\ match pc with
     | StaffBreak | StaffRelease =>
         0 < count (doctorsAvailable s0)
         /\ count (doctorsAvailable s) = count (doctorsAvailable s0) - 1
     | _ => doctorsAvailable s = doctorsAvailable s0
     end.

(** What one treatment of patient [p] by [doctorThreads[i]] appends to the
    history when it starts with counts [cd], [cn], [cr], [cv] and nothing
    else runs meanwhile. *)
Definition ventilator_granted (p : Patient) (cv : Z) : bool :=
  is_HIGH (priority p) && (cv >? 0).

Definition after_ventilator (i : nat) (p : Patient) (granted : bool)
    (cd cn cr cv : Z) : list Event :=
  [Displayed "Doctor" (Z.of_nat i + 1) (name p) (priorityToString (priority p))
     "Treating..." (cd - 1) (cn - 1) (cr - 1) (if granted then cv - 1 else cv);
   Slept 2]
  ++ (if granted then [Released Ventilators] else [])
  ++ [Released Doctors; Released Nurses; Released ExamRooms;
      Displayed "Doctor" (Z.of_nat i + 1) (name p) (priorityToString (priority p))
        "Finished" cd cn cr cv].

Definition treatment_events (i : nat) (p : Patient) (cd cn cr cv : Z) : list Event :=
  [Dequeued p; Acquired Doctors; Acquired Nurses; Acquired ExamRooms]
  ++ (if is_HIGH (priority p) then
        if cv >? 0 then [TryAcquired Ventilators true]
        else [TryAcquired Ventilators false;
              Printed ("Ventilator unavailable for " ++ name p)%string]
      else [])
  ++ after_ventilator i p (ventilator_granted p cv) cd cn cr cv.

(* ================================================================== *)
(** ** Reading the history *)

Definition Resource_eqb (a b : Resource) : bool :=
  match a, b with
  | Doctors, Doctors | Nurses, Nurses | ExamRooms, ExamRooms
  | Ventilators, Ventilators => true
  | _, _ => false
  end.

Definition Thread_eqb (a b : Thread) : bool :=
  match a, b with
  | DoctorThread i, DoctorThread j => Nat.eqb i j
  | PatientThread, PatientThread | ResourceThread, ResourceThread
  | StaffBehaviorThread, StaffBehaviorThread | MainThread, MainThread => true
  | _, _ => false
  end.

(** Effect of one event on the number of units of [r] thread [t] holds. *)
Definition holding_delta (t : Thread) (r : Resource) (e : Thread * Event) : Z :=
  if Thread_eqb (fst e) t then
    match snd e with
    | Acquired r' => if Resource_eqb r' r then 1 else 0
    | TryAcquired r' true => if Resource_eqb r' r then 1 else 0
    | Released r' => if Resource_eqb r' r then -1 else 0
    | _ => 0
    end
  else 0.

(** Units of [r] thread [t] has taken and not given back after history [h]. *)
Fixpoint holding (t : Thread) (r : Resource) (h : list (Thread * Event)) : Z :=
  match h with
  | [] => 0
  | e :: h' => holding_delta t r e + holding t r h'
  end.

(** The patient thread [t] dequeued last. *)
Fixpoint last_dequeued (t : Thread) (h : list (Thread * Event)) : option Patient :=
  match h with
  | [] => None
  | (t', e) :: h' =>
      match last_dequeued t h' with
      | Some p => Some p
      | None =>
          match e with
          | Dequeued p => if Thread_eqb t' t then Some p else None
          | _ => None
          end
      end
  end.

(** The blocking acquisitions of thread [t], oldest first. *)
Fixpoint acquisitions (t : Thread) (h : list (Thread * Event)) : list Resource :=
  match h with
  | [] => []
  | (t', Acquired r) :: h' =>
      if Thread_eqb t' t then r :: acquisitions t h' else acquisitions t h'
  | _ :: h' => acquisitions t h'
  end.

(** The fixed global order doctor, nurse, exam room, then doctor again for
    the next treatment. *)
Definition next_in_order (r : Resource) : Resource :=
  match r with
  | Doctors => Nurses
  | Nurses => ExamRooms
  | ExamRooms => Doctors
  | Ventilators => Ventilators
  end.

Fixpoint follows_order (expected : Resource) (l : list Resource) : bool :=
  match l with
  | [] => true
  | r :: l' => Resource_eqb r expected && follows_order (next_in_order expected) l'
  end.

(* ================================================================== *)
(** ** A pool driven by a single-threaded harness

    [Semaphore] has no capacity member.  The harness keeps the capacity the
    spec speaks of next to the semaphore: the initial count plus every unit
    added by a capacity adjustment, which the code performs by calling
    [release] without holding a unit (see [release_times]).  [held] counts
    the units callers have taken and not returned. *)
Inductive PoolOp : Set :=
  | OpAcquire
  | OpTryAcquire
  | OpRelease
  | OpAdjustCapacity (delta : Z).

Record Pool : Set := mkPool
  { sem : Semaphore;
    capacity : Z;
    held : Z }.

Definition new_pool (initialCount : Z) : Pool :=
  mkPool (mkSemaphore initialCount) initialCount 0.

Definition pool_op (op : PoolOp) (p : Pool) : option Pool :=
  match op with
  | OpAcquire =>
      match acquire (sem p) with
      | Some s => Some (mkPool s (capacity p) (held p + 1))
      | None => None
      end
  | OpTryAcquire =>
      let (ok, s) := try_acquire (sem p) in
      Some (mkPool s (capacity p) (if ok then held p + 1 else held p))
  | OpRelease => Some (mkPool (release (sem p)) (capacity p) (held p - 1))
  | OpAdjustCapacity delta =>
      Some (mkPool (Z.iter delta release (sem p)) (capacity p + Z.max 0 delta) (held p))
  end.

(** The pool after each operation, in order; the harness stops at an
    [acquire] that would block. *)
Fixpoint pool_states (ops : list PoolOp) (p : Pool) : list Pool :=
  match ops with
  | [] => []
  | op :: rest =>
      match pool_op op p with
      | Some p' => p' :: pool_states rest p'
      | None => []
      end
  end.

(** The contract the spec puts on callers: a release returns a unit the
    callers hold.  The capacity stays an [int]; an adjustment by zero or
    less runs the loop no time and changes nothing. *)
Fixpoint disciplined (ops : list PoolOp) (p : Pool) : bool :=
  match ops with
  | [] => true
  | op :: rest =>
      match op with
      | OpRelease => held p >? 0
      | OpAdjustCapacity delta => capacity p + Z.max 0 delta <=? INT_MAX
      | _ => true
      end
      && match pool_op op p with
         | Some p' => disciplined rest p'
         | None => true
         end
  end.

Definition pool_invariant (p : Pool) : Prop :=
  0 <= available (sem p) <= capacity p.

(** What the harness keeps true: the count plus the units out with callers
    is the capacity. *)
Definition pool_balance (p : Pool) : Prop :=
  0 <= count (sem p) /\ 0 <= held p
  /\ count (sem p) + held p = capacity p /\ capacity p <= INT_MAX.

(* ================================================================== *)
(** ** Invariants of the process *)

(** What a doctor thread holds, read off its program counter. *)
Definition pc_holds (pc : DoctorPC) (r : Resource) : bool :=
  match r, pc with
  | Doctors, (AtAcquireNurse | AtAcquireRoom | AtVentilator | AtDisplayTreating
              | AtTreating | AtReleaseVentilator | AtReleaseDoctor) => true
  | Nurses, (AtAcquireRoom | AtVentilator | AtDisplayTreating | AtTreating
             | AtReleaseVentilator | AtReleaseDoctor | AtReleaseNurse) => true
  | ExamRooms, (AtVentilator | AtDisplayTreating | AtTreating
                | AtReleaseVentilator | AtReleaseDoctor | AtReleaseNurse
                | AtReleaseRoom) => true
  | _, _ => false
  end.

Definition vent_holder (d : Doctor) : bool :=
  ventilatorAllocated d
  && match doctor_pc d with
     | AtDisplayTreating | AtTreating | AtReleaseVentilator => true
     | _ => false
     end.

Fixpoint vent_holders (l : list Doctor) : Z :=
  match l with
  | [] => 0
  | d :: r => Z.b2z (vent_holder d) + vent_holders r
  end.

Definition pc_in_cycle (pc : DoctorPC) : bool :=
  match pc with
  | AtLoopHead | AtWait | DoctorReturned => false
  | _ => true
  end.

Definition pc_expects (pc : DoctorPC) : Resource :=
  match pc with
  | AtAcquireNurse => Nurses
  | AtAcquireRoom => ExamRooms
  | _ => Doctors
  end.

Definition expected_after (start : Resource) (l : list Resource) : Resource :=
  fold_left (fun e _ => next_in_order e) l start.

(** The history of thread [doctorThreads[i]] agrees with its local state. *)
Definition doctor_inv (i : nat) (d : Doctor) (h : list (Thread * Event)) : Prop :=
  let t := DoctorThread i in
  holding t Doctors h = Z.b2z (pc_holds (doctor_pc d) Doctors)
  /\ holding t Nurses h = Z.b2z (pc_holds (doctor_pc d) Nurses)
  /\ holding t ExamRooms h = Z.b2z (pc_holds (doctor_pc d) ExamRooms)
  /\ holding t Ventilators h = Z.b2z (vent_holder d)
  /\ (pc_in_cycle (doctor_pc d) = true ->
      exists p, currentPatient d = Some p /\ last_dequeued t h = Some p)
  /\ follows_order Doctors (acquisitions t h) = true
  /\ expected_after Doctors (acquisitions t h) = pc_expects (doctor_pc d).

(** What must hold when event [e] is appended to history [h1]. *)
Definition event_allowed (h1 : list (Thread * Event)) (e : Thread * Event) : Prop :=
  let t := fst e in
  match snd e with
  | Acquired Doctors =>
      holding t Doctors h1 = 0 /\ holding t Nurses h1 = 0
      /\ holding t ExamRooms h1 = 0
  | Acquired Nurses =>
      holding t Doctors h1 = 1 /\ holding t Nurses h1 = 0
      /\ holding t ExamRooms h1 = 0
  | Acquired ExamRooms =>
      holding t Doctors h1 = 1 /\ holding t Nurses h1 = 1
      /\ holding t ExamRooms h1 = 0
  | Acquired Ventilators => False
  | TryAcquired Ventilators _ =>
      (exists p, last_dequeued t h1 = Some p /\ priority p = HIGH)
      /\ holding t Doctors h1 = 1 /\ holding t Nurses h1 = 1
      /\ holding t ExamRooms h1 = 1
  | Released Ventilators =>
      holding t Ventilators h1 = 1 /\ exists i, t = DoctorThread i
  | Dequeued _ => holding t Ventilators h1 = 0
  | _ => True
  end.

Definition history_ok (h : list (Thread * Event)) : Prop :=
  forall h1 e h2, h = h1 ++ e :: h2 -> event_allowed h1 e.

(** Events that are allowed after any history. *)
Definition quiet (e : Event) : bool :=
  match e with
  | Acquired _ | TryAcquired Ventilators _ | Released Ventilators | Dequeued _ => false
  | _ => true
  end.

Definition by_thread (t : Thread) (new : list (Thread * Event)) : Prop :=
  Forall (fun te => fst te = t) new.

Definition all_quiet (new : list (Thread * Event)) : Prop :=
  Forall (fun te => quiet (snd te) = true) new.

(** [s'] is [s] after a thread [t] appended only quiet events of its own. *)
Definition extends (t : Thread) (s s' : Shared) : Prop :=
  exists new, history s' = history s ++ new /\ by_thread t new /\ all_quiet new.

Definition thread_of (a : Action) : Thread :=
  match a with
  | RunDoctor i => DoctorThread i
  | RunPatientArrival _ _ => PatientThread
  | RunResourceGeneration _ _ _ => ResourceThread
  | RunStaffBehavior => StaffBehaviorThread
  | RunMain => MainThread
  end.

Definition world_inv (w : World) : Prop :=
  0 <= count (ventilatorsAvailable (shared w))
  /\ count (ventilatorsAvailable (shared w)) + vent_holders (doctorThreads w) = 1
  /\ (forall i d, nth_error (doctorThreads w) i = Some d ->
                  doctor_inv i d (history (shared w)))
  /\ history_ok (history (shared w))
  /\ List.length (doctorThreads w) = 3%nat.

(* ================================================================== *)
(** ** Further readings of the state and the history *)

(** Patients in the order [addPatient] pushed them. *)
Definition pushed_patients (h : list (Thread * Event)) : list Patient :=
  flat_map (fun te => match snd te with Pushed p => [p] | _ => [] end) h.

(** The counts the four global semaphores are constructed with. *)
Definition initial_count (r : Resource) : Z :=
  match r with
  | Doctors => 3
  | Nurses => 2
  | ExamRooms => 2
  | Ventilators => 1
  end.

(** Units of [r] that [dynamicResourceGeneration] has added so far. *)
Fixpoint added (r : Resource) (h : list (Thread * Event)) : Z :=
  match h with
  | [] => 0
  | (ResourceThread, Released r') :: h' =>
      (if Resource_eqb r' r then 1 else 0) + added r h'
  | _ :: h' => added r h'
  end.

(** Program points at which a thread owns [queueMutex] across steps. *)
Definition in_resource_cs (pc : ResourcePC) : bool :=
  match pc with
  | ResAddDoctors | ResAddNurses | ResAddRooms | ResReport => true
  | _ => false
  end.

Definition in_staff_cs (pc : StaffPC) : bool :=
  match pc with
  | StaffTry | StaffBreak | StaffRelease | StaffUnlock => true
  | _ => false
  end.

(** A property of every event of a history, given what came before it. *)
Definition history_all (Q : list (Thread * Event) -> Thread * Event -> Prop)
    (h : list (Thread * Event)) : Prop :=
  forall h1 e h2, h = h1 ++ e :: h2 -> Q h1 e.

(** How the flag, the mutex and the locals of [dynamicResourceGeneration]
    relate to the program points of the threads. *)
Definition control_inv (w : World) : Prop :=
  isRunning (shared w)
  = match mainThread w with MainSleeping => true | _ => false end
  /\ queueMutex (shared w)
     = in_resource_cs (resource_pc (resourceThread w))
       || in_staff_cs (staffBehaviorThread w)
  /\ in_resource_cs (resource_pc (resourceThread w))
     && in_staff_cs (staffBehaviorThread w) = false
  /\ 0 <= newDoctors (resourceThread w) <= 1
  /\ 0 <= newNurses (resourceThread w) <= 1
  /\ 0 <= newExamRooms (resourceThread w) <= 1
  /\ (mainThread w = MainReturned -> all_joined w = true).

(** [shutdown_schedule] followed by the last loop tests of the three other
    threads and by [main] returning from its [join]s. *)
Definition complete_schedule : list Action :=
  shutdown_schedule
  ++ [RunPatientArrival 0 false; RunResourceGeneration 0 0 0; RunStaffBehavior;
      RunMain].

Definition no_queue_event (te : Thread * Event) : Prop :=
  match snd te with
  | Pushed _ | Dequeued _ => False
  | _ => True
  end.

(** How the arrival counter, the pushed and dequeued patients and the queue
    relate. *)
Definition arrivals_inv (w : World) : Prop :=
  let h := history (shared w) in
  let n := List.length (pushed_patients h) in
  patientId (patientThread w) = int_wrap (1 + Z.of_nat n)
  /\ map id (pushed_patients h)
     = map (fun k => int_wrap (1 + Z.of_nat k)) (seq 0 n)
  /\ Permutation (pushed_patients h)
       (dequeued_patients h ++ patientQueue (shared w)).

(** When [e] dequeues a patient after history [h1], that patient was
    waiting and nobody waiting had to be served before it. *)
Definition most_urgent_first (h1 : list (Thread * Event)) (e : Thread * Event)
  : Prop :=
  match snd e with
  | Dequeued p =>
      exists rest,
        Permutation (pushed_patients h1) (dequeued_patients h1 ++ p :: rest)
        /\ Forall (served_no_later p) rest
  | _ => True
  end.

(** Units of [r] in the hands of the threads, read off their program
    points. *)
Definition doctor_holds (r : Resource) (d : Doctor) : bool :=
  match r with
  | Ventilators => vent_holder d
  | _ => pc_holds (doctor_pc d) r
  end.

Fixpoint doctor_holders (r : Resource) (l : list Doctor) : Z :=
  match l with
  | [] => 0
  | d :: l' => Z.b2z (doctor_holds r d) + doctor_holders r l'
  end.

Definition staff_holds (r : Resource) (pc : StaffPC) : Z :=
  match r, pc with
  | Doctors, (StaffBreak | StaffRelease) => 1
  | _, _ => 0
  end.

Definition holders (r : Resource) (w : World) : Z :=
  doctor_holders r (doctorThreads w) + staff_holds r (staffBehaviorThread w).

(** The books of pool [r] balance, as long as its capacity fits an [int]. *)
Definition pool_account (w : World) (r : Resource) : Prop :=
  initial_count r + added r (history (shared w)) <= INT_MAX ->
  0 <= count (pool r (shared w))
  /\ count (pool r (shared w)) + holders r w
     = initial_count r + added r (history (shared w)).


(** A schedule in which [dynamicResourceGeneration] completes one round that
    adds a doctor and a nurse while the three doctor threads are treating. *)
Definition growth_schedule : list Action :=
  before_shutdown ++ [RunResourceGeneration 1 1 0; RunResourceGeneration 1 1 0;
                      RunResourceGeneration 1 1 0; RunResourceGeneration 1 1 0].






(** Patients dequeued by thread [t]. *)
Definition dequeued_by (t : Thread) (h : list (Thread * Event)) : list Patient :=
  flat_map (fun te => match snd te with
                      | Dequeued p => if Thread_eqb (fst te) t then [p] else []
                      | _ => []
                      end) h.

(** What [doctorThreads[i]] has dequeued, plus one if it is in the wait. *)
Definition thread_potential (i : nat) (w : World) : nat :=
  (List.length (dequeued_by (DoctorThread i) (history (shared w)))
   + match nth_error (doctorThreads w) i with
     | Some d => waiting d
     | None => 0
     end)%nat.

(** One doctor thread in the wait when a patient arrives and [main] clears
    the flag. *)
Definition stop_while_waiting : list Action :=
  [RunDoctor 0] ++ arrive 0 ++ [RunMain].

(** The name [patientArrival] builds is made from the patient's id or from
    the id after the increment, as the two uses of [patientId] in the call
    happen in either order. *)
Definition well_named (p : Patient) : Prop :=
  name p = ("Patient_" ++ to_string (id p))%string
  \/ name p = ("Patient_" ++ to_string (int_incr (id p)))%string.

Fixpoint resource_steps (n : nat) (r1 r2 r3 : Z) (g : ResourceGen) (s : Shared)
  : option (ResourceGen * Shared) :=
  match n with
  | O => Some (g, s)
  | S n' =>
      match dynamicResourceGeneration r1 r2 r3 g s with
      | Some (g', s') => resource_steps n' r1 r2 r3 g' s'
      | None => None
      end
  end.
(* ================================================================== *)
(** * Proofs *)

(** ** Machine integers *)

Lemma int_wrap_id z : int_range z -> int_wrap z = z.
Proof.
  unfold int_range, INT_MIN, INT_MAX, int_wrap. intros H.
  rewrite Z.mod_small; lia.
Qed.

Lemma int_decr_pos z : 0 < z -> z <= INT_MAX -> int_decr z = z - 1.
Proof.
  intros H1 H2. unfold int_decr. apply int_wrap_id.
  unfold int_range, INT_MIN, INT_MAX in *. lia.
Qed.

Lemma int_incr_below z : INT_MIN <= z -> z < INT_MAX -> int_incr z = z + 1.
Proof.
  intros H1 H2. unfold int_incr. apply int_wrap_id.
  unfold int_range, INT_MIN, INT_MAX in *. lia.
Qed.

(** ** The comparator *)

Lemma priority_value_inj p q : priority_value p = priority_value q -> p = q.
Proof. destruct p, q; simpl; intros H; congruence || discriminate H. Qed.

Lemma ComparePatient_false a b :
  ComparePatient a b = false -> served_no_later a b.
Proof.
  unfold ComparePatient, served_no_later.
  destruct (Z.eqb_spec (priority_value (priority a)) (priority_value (priority b))) as [E | E];
    intros H.
  - right. split; [now apply priority_value_inj |].
    rewrite Z.gtb_ltb in H. apply Z.ltb_ge in H. exact H.
  - left. rewrite Z.gtb_ltb in H. apply Z.ltb_ge in H. lia.
Qed.

Lemma ComparePatient_true a b :
  ComparePatient a b = true -> served_no_later b a.
Proof.
  unfold ComparePatient, served_no_later.
  destruct (Z.eqb_spec (priority_value (priority a)) (priority_value (priority b))) as [E | E];
    intros H; rewrite Z.gtb_ltb in H; apply Z.ltb_lt in H.
  - right. split; [symmetry; now apply priority_value_inj | lia].
  - left. exact H.
Qed.

Lemma served_no_later_trans a b c :
  served_no_later a b -> served_no_later b c -> served_no_later a c.
Proof.
  unfold served_no_later.
  intros [H1 | [H1 H1']] [H2 | [H2 H2']].
  - left; lia.
  - left; rewrite <- H2; exact H1.
  - left; rewrite H1; exact H2.
  - right; split; [congruence | lia].
Qed.

Lemma served_no_later_refl a : served_no_later a a.
Proof. right; split; [reflexivity | lia]. Qed.

(** ** The admission queue *)

Lemma pq_extract_none q : pq_extract q = None -> q = [].
Proof.
  destruct q as [| x r]; [reflexivity |]. simpl.
  destruct (pq_extract r) as [[m r'] |]; [| discriminate].
  destruct (ComparePatient x m); discriminate.
Qed.

Lemma pq_extract_perm q : forall m r,
  pq_extract q = Some (m, r) -> Permutation q (m :: r).
Proof.
  induction q as [| x q IH]; intros m r H; simpl in H; [discriminate |].
  destruct (pq_extract q) as [[m' r'] |] eqn:E.
  - specialize (IH _ _ eq_refl).
    destruct (ComparePatient x m'); inversion H; subst; clear H.
    + rewrite IH. apply perm_swap.
    + apply Permutation_refl.
  - inversion H; subst. apply pq_extract_none in E. subst. apply Permutation_refl.
Qed.

(** What [top] returns is served no later than anything left behind. *)
Lemma pq_extract_first q : forall m r,
  pq_extract q = Some (m, r) -> Forall (served_no_later m) r.
Proof.
  induction q as [| x q IH]; intros m r H; simpl in H; [discriminate |].
  destruct (pq_extract q) as [[m' r'] |] eqn:E.
  - pose proof (IH _ _ eq_refl) as Hr'.
    pose proof (pq_extract_perm _ _ _ E) as Hp.
    destruct (ComparePatient x m') eqn:C; inversion H; subst; clear H.
    + constructor; [now apply ComparePatient_true | exact Hr'].
    + apply ComparePatient_false in C.
      apply (Permutation_Forall (Permutation_sym Hp)).
      constructor; [exact C |].
      eapply Forall_impl; [| exact Hr'].
      intros y Hy. now apply served_no_later_trans with m'.
  - inversion H; subst. constructor.
Qed.

Lemma pq_top_pop q m r :
  pq_extract q = Some (m, r) -> pq_top q = Some m /\ pq_pop q = r.
Proof. unfold pq_top, pq_pop. intros ->. split; reflexivity. Qed.

Lemma pq_pop_length q : q <> [] -> S (List.length (pq_pop q)) = List.length q.
Proof.
  intros Hq. unfold pq_pop.
  destruct (pq_extract q) as [[m r] |] eqn:E.
  - apply pq_extract_perm in E. apply Permutation_length in E. simpl in E. lia.
  - apply pq_extract_none in E. contradiction.
Qed.

Lemma enqueue_all_contents l : enqueue_all l = l.
Proof.
  unfold enqueue_all.
  assert (G : forall acc, fold_left (fun q x => pq_push x q) l acc = acc ++ l).
  { induction l as [| x l IH]; intros acc; simpl.
    - now rewrite app_nil_r.
    - rewrite IH. unfold pq_push. now rewrite <- app_assoc. }
  apply G.
Qed.

Lemma dequeue_n_sorts n : forall q,
  List.length q = n ->
  Permutation q (dequeue_n n q) /\ StronglySorted served_no_later (dequeue_n n q).
Proof.
  induction n as [| n IH]; intros q Hlen.
  - destruct q; [| discriminate]. split; constructor.
  - simpl. destruct (pq_extract q) as [[m r] |] eqn:E.
    + destruct (pq_top_pop _ _ _ E) as [-> ->].
      pose proof (pq_extract_perm _ _ _ E) as Hp.
      pose proof (pq_extract_first _ _ _ E) as Hf.
      assert (Hr : List.length r = n).
      { apply Permutation_length in Hp. simpl in Hp. lia. }
      destruct (IH r Hr) as [Hp' Hs']. split.
      * rewrite Hp. now constructor.
      * constructor; [exact Hs' |].
        now apply (Permutation_Forall Hp').
    + apply pq_extract_none in E. subst. discriminate.
Qed.

Lemma served_no_later_antisym a b :
  served_no_later a b -> served_no_later b a -> queue_key a = queue_key b.
Proof.
  unfold served_no_later, queue_key.
  intros [H1 | [H1 H1']] [H2 | [H2 H2']]; try lia.
  - rewrite H2 in H1. lia.
  - rewrite H1 in H2. lia.
  - rewrite H1. f_equal. lia.
Qed.

Lemma same_key_same_patient q : forall a b,
  NoDup (map queue_key q) -> In a q -> In b q ->
  queue_key a = queue_key b -> a = b.
Proof.
  induction q as [| x q IH]; intros a b Hnd Ha Hb Hk; [contradiction |].
  simpl in Hnd. inversion Hnd as [| k l Hnotin Hnd']; subst.
  destruct Ha as [-> | Ha], Hb as [-> | Hb]; try reflexivity.
  - elim Hnotin. rewrite Hk. now apply in_map.
  - elim Hnotin. rewrite <- Hk. now apply in_map.
  - now apply IH.
Qed.

(** The scan's choice among ties never matters when no two queued patients
    share priority and id, as in the program, where ids come from one
    counter: any element the comparator orders before no other is the one
    [pq_top] returns. *)
Lemma pq_top_determined q x :
  NoDup (map queue_key q) -> In x q ->
  (forall y, In y q -> ComparePatient x y = false) ->
  pq_top q = Some x.
Proof.
  intros Hnd Hx Hmax.
  destruct (pq_extract q) as [[m r] |] eqn:E.
  - destruct (pq_top_pop _ _ _ E) as [-> _]. f_equal.
    pose proof (pq_extract_perm _ _ _ E) as Hp.
    pose proof (pq_extract_first _ _ _ E) as Hf.
    assert (Hm : In m q).
    { apply (Permutation_in _ (Permutation_sym Hp)). now left. }
    apply (same_key_same_patient q); try assumption.
    apply served_no_later_antisym.
    + apply (Permutation_in _ Hp) in Hx. destruct Hx as [<- | Hx].
      * apply served_no_later_refl.
      * rewrite Forall_forall in Hf. now apply Hf.
    + apply ComparePatient_false. now apply Hmax.
  - apply pq_extract_none in E. subst. contradiction.
Qed.

(** C1.  For every sequence of enqueued patients, dequeuing until the queue
    is empty returns the same patients ordered by priority (HIGH, then
    MEDIUM, then LOW) and, within one priority, by ascending arrival number
    (the [id]); enqueuing LOW(1), HIGH(2), MEDIUM(3) gives HIGH(2),
    MEDIUM(3), LOW(1). *)
Theorem dequeue_order_is_priority_then_arrival :
  (forall arrivals : list Patient,
      let served := dequeue_all (enqueue_all arrivals) in
      Permutation arrivals served /\ StronglySorted served_no_later served)
  /\ (forall n1 n2 n3 : string,
        dequeue_all (enqueue_all [mkPatient 1 n1 LOW; mkPatient 2 n2 HIGH;
                                  mkPatient 3 n3 MEDIUM])
        = [mkPatient 2 n2 HIGH; mkPatient 3 n3 MEDIUM; mkPatient 1 n1 LOW]).
Proof.
  split.
  - intros arrivals. cbv zeta. rewrite enqueue_all_contents.
    unfold dequeue_all. now apply dequeue_n_sorts.
  - intros. reflexivity.
Qed.

(** ** The semaphore *)

(** C6.  [try_acquire] always returns; it reports success exactly when the
    count was positive, in which case the count drops by one, and otherwise
    it reports failure and the semaphore is the one it was given. *)
Theorem try_acquire_spec (s : Semaphore) :
  int_range (count s) ->
  (fst (try_acquire s) = true <-> available s > 0)
  /\ (available s > 0 ->
      try_acquire s = (true, mkSemaphore (available s - 1)))
  /\ (available s <= 0 -> try_acquire s = (false, s))
  /\ (available s = 0 -> fst (try_acquire s) = false).
Proof.
  intros [_ Hmax]. unfold try_acquire, available.
  destruct (Z.gtb_spec (count s) 0) as [Hpos | Hle]; simpl.
  - rewrite int_decr_pos by lia.
    repeat split; intros; try reflexivity; lia.
  - repeat split; intros; try reflexivity; try discriminate; lia.
Qed.

Lemma try_acquire_spec_witness :
  int_range (count (mkSemaphore 1))
  /\ try_acquire (mkSemaphore 1) = (true, mkSemaphore 0)
  /\ try_acquire (mkSemaphore 0) = (false, mkSemaphore 0).
Proof.
  assert (R1 : int_range (count (mkSemaphore 1))) by (vm_compute; split; discriminate).
  assert (R0 : int_range (count (mkSemaphore 0))) by (vm_compute; split; discriminate).
  split; [exact R1 |]. split.
  - apply (proj1 (proj2 (try_acquire_spec (mkSemaphore 1) R1))). reflexivity.
  - apply (proj1 (proj2 (proj2 (try_acquire_spec (mkSemaphore 0) R0)))).
    simpl. lia.
Defined.

Lemma acquire_then_release s :
  0 < count s -> count s <= INT_MAX ->
  exists s1, acquire s = Some s1 /\ release s1 = s.
Proof.
  intros Hpos Hmax. unfold acquire.
  destruct (Z.gtb_spec (count s) 0) as [_ | Hle]; [| lia].
  eexists; split; [reflexivity |].
  unfold release; simpl. rewrite int_decr_pos by assumption.
  rewrite int_incr_below by (unfold INT_MIN, INT_MAX in *; lia).
  destruct s; simpl. f_equal. lia.
Qed.

(** C7.  [n] sequential [acquire(); release();] pairs, the first [acquire]
    finding the count positive, all return and leave the count at its
    initial value. *)
Theorem acquire_release_round_trip (n : nat) (s : Semaphore) :
  int_range (count s) ->
  (n <> O -> available s > 0) ->
  exists s', acquire_release_pairs n s = Some s' /\ available s' = available s.
Proof.
  intros [_ Hmax] Hpos. exists s. split; [| reflexivity].
  induction n as [| n IH]; [reflexivity |].
  unfold available in Hpos.
  assert (H0 : 0 < count s) by (apply Z.gt_lt, Hpos; discriminate).
  simpl. destruct (acquire_then_release s H0 Hmax) as [s1 [-> ->]].
  apply IH. intros _. unfold available. lia.
Qed.

Lemma acquire_release_round_trip_witness :
  exists s', acquire_release_pairs 5 (mkSemaphore 3) = Some s' /\ available s' = 3.
Proof.
  apply (acquire_release_round_trip 5 (mkSemaphore 3)).
  - vm_compute. split; discriminate.
  - intros _. reflexivity.
Defined.

(** ** A pool under a single-threaded harness *)

Lemma Z_iter_invariant {A : Type} (Inv : A -> Prop) (f : A -> A) :
  (forall x, Inv x -> Inv (f x)) ->
  forall n x, Inv x -> Inv (Z.iter n f x).
Proof.
  intros Hf n x Hx. destruct n as [| p | p]; simpl; try exact Hx.
  now apply Pos.iter_invariant.
Qed.

Lemma release_n_count (n : Z) (s : Semaphore) :
  0 <= n -> INT_MIN <= count s -> count s + n <= INT_MAX ->
  count (Z.iter n release s) = count s + n.
Proof.
  intros Hn Hlo Hhi.
  rewrite iter_nat_of_Z by exact Hn.
  rewrite <- (Z2Nat.id n) in Hhi |- * by exact Hn.
  rewrite Zabs2Nat.abs_nat_nonneg, Nat2Z.id by lia.
  induction (Z.to_nat n) as [| k IH]; cbn [nat_rect].
  - cbn. lia.
  - unfold release at 1; cbn [count]. rewrite IH by lia.
    rewrite int_incr_below; lia.
Qed.

Lemma pool_balance_invariant p : pool_balance p -> pool_invariant p.
Proof. unfold pool_balance, pool_invariant, available. lia. Qed.

Lemma pool_op_balance op p p' :
  pool_balance p -> disciplined [op] p = true -> pool_op op p = Some p' ->
  pool_balance p'.
Proof.
  unfold pool_balance. intros (Hc & Hh & Hsum & Hcap) Hd Hop.
  assert (HMIN : INT_MIN <= 0) by (unfold INT_MIN; lia).
  destruct op as [| | | delta]; cbn [disciplined pool_op] in Hd, Hop.
  - unfold acquire in Hop.
    destruct (Z.gtb_spec (count (sem p)) 0); inversion Hop; subst; simpl.
    rewrite int_decr_pos; lia.
  - unfold try_acquire in Hop.
    destruct (Z.gtb_spec (count (sem p)) 0); inversion Hop; subst; simpl.
    + rewrite int_decr_pos; lia.
    + lia.
  - inversion Hop; subst; simpl.
    rewrite andb_true_r in Hd.
    assert (0 < held p) by (destruct (Z.gtb_spec (held p) 0); [lia | discriminate]).
    rewrite int_incr_below; lia.
  - inversion Hop; subst; cbn [sem capacity held].
    rewrite andb_true_r in Hd. apply Z.leb_le in Hd.
    destruct (Z.le_gt_cases 0 delta) as [Hn | Hn].
    + rewrite release_n_count; lia.
    + destruct delta as [| q | q]; try lia. cbn [Z.iter]. lia.
Qed.

Lemma disciplined_cons op ops p :
  disciplined (op :: ops) p = true ->
  disciplined [op] p = true
  /\ (forall p', pool_op op p = Some p' -> disciplined ops p' = true).
Proof.
  simpl. intros H. apply andb_prop in H as [H1 H2]. split.
  - rewrite H1. simpl. now destruct (pool_op op p).
  - intros p' Hp'. now rewrite Hp' in H2.
Qed.

Lemma pool_states_balanced ops : forall p,
  pool_balance p -> disciplined ops p = true ->
  Forall pool_balance (pool_states ops p).
Proof.
  induction ops as [| op ops IH]; intros p Hp Hd; simpl; [constructor |].
  apply disciplined_cons in Hd as [Hd1 Hd2].
  destruct (pool_op op p) as [p' |] eqn:E; [| constructor].
  assert (Hp' : pool_balance p') by now apply (pool_op_balance op p).
  constructor; [exact Hp' |]. apply IH; [exact Hp' | now apply Hd2].
Qed.

(** C3.  For every pool created with a count between 0 and [INT_MAX], and
    every sequence of acquire, try_acquire, release and capacity adjustment
    by any delta, in which callers keep the contract of [release] (they
    return only units they hold) and the capacity stays an [int],
    0 <= available <= capacity holds after every operation. *)
Theorem pool_invariant_under_discipline (initialCount : Z) (ops : list PoolOp) :
  0 <= initialCount <= INT_MAX ->
  disciplined ops (new_pool initialCount) = true ->
  Forall pool_invariant (pool_states ops (new_pool initialCount)).
Proof.
  intros Hc Hd.
  eapply Forall_impl; [exact pool_balance_invariant |].
  apply pool_states_balanced; [| exact Hd].
  unfold pool_balance, new_pool; simpl. lia.
Qed.

Lemma pool_invariant_under_discipline_witness :
  Forall pool_invariant
    (pool_states [OpAcquire; OpTryAcquire; OpTryAcquire; OpRelease;
                  OpAdjustCapacity 1; OpAcquire; OpAdjustCapacity (-2);
                  OpRelease; OpRelease]
       (new_pool 2)).
Proof.
  apply (pool_invariant_under_discipline 2).
  - vm_compute. split; discriminate.
  - vm_compute. reflexivity.
Defined.

(** ** Histories *)

Lemma Thread_eqb_eq t t' : Thread_eqb t t' = true -> t = t'.
Proof.
  destruct t, t'; simpl; intros H; try discriminate; try reflexivity.
  apply Nat.eqb_eq in H. now subst.
Qed.

Lemma holding_app t r h h' :
  holding t r (h ++ h') = holding t r h + holding t r h'.
Proof. induction h as [| e h IH]; simpl; [reflexivity | rewrite IH; lia]. Qed.

Lemma last_dequeued_app t h h' :
  last_dequeued t (h ++ h') =
  match last_dequeued t h' with
  | Some p => Some p
  | None => last_dequeued t h
  end.
Proof.
  induction h as [| [t0 e] h IH]; simpl.
  - now destruct (last_dequeued t h').
  - rewrite IH. now destruct (last_dequeued t h').
Qed.

Lemma acquisitions_app t h h' :
  acquisitions t (h ++ h') = acquisitions t h ++ acquisitions t h'.
Proof.
  induction h as [| [t0 e] h IH]; simpl; [reflexivity |].
  destruct e; try exact IH.
  destruct (Thread_eqb t0 t); simpl; now rewrite IH.
Qed.

Lemma follows_order_app l : forall l' e,
  follows_order e (l ++ l') =
  follows_order e l && follows_order (expected_after e l) l'.
Proof.
  induction l as [| r l IH]; intros l' e; simpl; [reflexivity |].
  rewrite IH. unfold expected_after. simpl. now rewrite andb_assoc.
Qed.

Lemma expected_after_app l l' e :
  expected_after e (l ++ l') = expected_after (expected_after e l) l'.
Proof. unfold expected_after. apply fold_left_app. Qed.

(** Events of another thread change nothing a thread reads in the history. *)
Section OtherThread.
Variables t t' : Thread.
Hypothesis Hdiff : t' <> t.

Lemma other_eqb_false : Thread_eqb t' t = false.
Proof.
  destruct (Thread_eqb t' t) eqn:E; [| reflexivity].
  apply Thread_eqb_eq in E. contradiction.
Qed.

Lemma holding_other r new : by_thread t' new -> holding t r new = 0.
Proof.
  induction 1 as [| [t0 e] new H _ IH]; simpl; [reflexivity |].
  simpl in H; subst t0.
  unfold holding_delta; simpl. rewrite other_eqb_false, IH. reflexivity.
Qed.

Lemma last_dequeued_other new : by_thread t' new -> last_dequeued t new = None.
Proof.
  induction 1 as [| [t0 e] new H _ IH]; simpl; [reflexivity |].
  simpl in H; subst t0. rewrite IH, other_eqb_false. now destruct e.
Qed.

Lemma acquisitions_other new : by_thread t' new -> acquisitions t new = [].
Proof.
  induction 1 as [| [t0 e] new H _ IH]; simpl; [reflexivity |].
  simpl in H; subst t0. rewrite other_eqb_false. now destruct e.
Qed.
End OtherThread.

Lemma doctor_inv_other i d t' h new :
  t' <> DoctorThread i -> by_thread t' new ->
  doctor_inv i d h -> doctor_inv i d (h ++ new).
Proof.
  intros Hd Hn. unfold doctor_inv.
  rewrite !holding_app, last_dequeued_app, acquisitions_app.
  rewrite !(holding_other _ _ Hd _ _ Hn), (last_dequeued_other _ _ Hd _ Hn),
    (acquisitions_other _ _ Hd _ Hn), app_nil_r, !Z.add_0_r.
  trivial.
Qed.

Lemma history_ok_nil : history_ok [].
Proof. intros h1 e h2 H. now destruct h1. Qed.

Lemma history_ok_snoc h e :
  history_ok h -> event_allowed h e -> history_ok (h ++ [e]).
Proof.
  intros Hh He h1 e1 h2 Heq.
  destruct (app_eq_app _ _ _ _ Heq) as [l [[H1 H2] | [H1 H2]]].
  - destruct l as [| x l]; simpl in H2; inversion H2; subst.
    + rewrite app_nil_r in He. exact He.
    + apply (Hh h1 x l). reflexivity.
  - destruct l as [| x l]; simpl in H2; inversion H2; subst.
    + rewrite app_nil_r. exact He.
    + now destruct l.
Qed.

Lemma quiet_allowed t e h : quiet e = true -> event_allowed h (t, e).
Proof.
  unfold event_allowed; simpl.
  destruct e as [| | r | r ok | r | | | |]; simpl; intros H; try exact I;
    try discriminate; destruct r; try exact I; discriminate.
Qed.

Lemma history_ok_quiet new : forall h,
  history_ok h -> all_quiet new -> history_ok (h ++ new).
Proof.
  induction new as [| [t e] new IH]; intros h Hh Hq.
  - now rewrite app_nil_r.
  - inversion Hq as [| x l Hq1 Hq2]; subst. simpl in Hq1.
    change (h ++ (t, e) :: new) with (h ++ [(t, e)] ++ new).
    rewrite app_assoc. apply IH; [| exact Hq2].
    apply history_ok_snoc; [exact Hh | now apply quiet_allowed].
Qed.

(** ** The vector of doctor threads *)

Lemma replace_nth_length {A} (x : A) l : forall i,
  List.length (replace_nth i x l) = List.length l.
Proof. induction l as [| y l IH]; intros [| i]; simpl; auto. Qed.

Lemma nth_error_replace_nth_eq {A} (x : A) l : forall i y,
  nth_error l i = Some y -> nth_error (replace_nth i x l) i = Some x.
Proof.
  induction l as [| z l IH]; intros [| i] y H; simpl in *; try discriminate; eauto.
Qed.

Lemma nth_error_replace_nth_neq {A} (x : A) l : forall i j,
  i <> j -> nth_error (replace_nth i x l) j = nth_error l j.
Proof.
  induction l as [| z l IH]; intros [| i] [| j] H; simpl; auto; try congruence.
Qed.

Lemma vent_holders_replace_nth d' l : forall i d,
  nth_error l i = Some d ->
  vent_holders (replace_nth i d' l)
  = vent_holders l - Z.b2z (vent_holder d) + Z.b2z (vent_holder d').
Proof.
  induction l as [| z l IH]; intros [| i] d H; simpl in *; try discriminate.
  - inversion H; subst. ring.
  - rewrite (IH _ _ H). ring.
Qed.

Lemma vent_holders_nonneg l : 0 <= vent_holders l.
Proof.
  induction l as [| d l IH]; simpl; [lia |].
  destruct (vent_holder d); cbn [Z.b2z]; lia.
Qed.

(** ** Schedules *)

Lemma run_app s1 : forall s2 w,
  run (s1 ++ s2) w =
  match run s1 w with
  | Some w' => run s2 w'
  | None => None
  end.
Proof.
  induction s1 as [| a s1 IH]; intros s2 w; simpl; [reflexivity |].
  destruct (step a w); [apply IH | reflexivity].
Qed.

Lemma reachable_initial : reachable initial_world.
Proof. now exists []. Qed.

Lemma reachable_step a w w' :
  reachable w -> step a w = Some w' -> reachable w'.
Proof.
  intros [sched H] Hs. exists (sched ++ [a]).
  rewrite run_app, H. simpl. now rewrite Hs.
Qed.

Lemma reachable_ind (P : World -> Prop) :
  P initial_world ->
  (forall a w w', reachable w -> P w -> step a w = Some w' -> P w') ->
  forall w, reachable w -> P w.
Proof.
  intros H0 Hstep w [sched Hrun]. revert w Hrun.
  induction sched as [| a sched IH] using rev_ind; intros w Hrun.
  - simpl in Hrun. inversion Hrun; subst. exact H0.
  - rewrite run_app in Hrun.
    destruct (run sched initial_world) as [w0 |] eqn:E; [| discriminate].
    simpl in Hrun. destruct (step a w0) as [w1 |] eqn:Es; [| discriminate].
    inversion Hrun; subst.
    apply (Hstep a w0 w); [now exists sched | now apply IH | exact Es].
Qed.

(** ** Steps of the threads that are not doctors *)

Lemma extends_same t s s' : history s' = history s -> extends t s s'.
Proof.
  intros H. exists []. rewrite app_nil_r. repeat split; [exact H | |]; constructor.
Qed.

Lemma extends_refl t s : extends t s s.
Proof. now apply extends_same. Qed.

Lemma extends_trans t s1 s2 s3 :
  extends t s1 s2 -> extends t s2 s3 -> extends t s1 s3.
Proof.
  intros (n1 & H1 & B1 & Q1) (n2 & H2 & B2 & Q2).
  exists (n1 ++ n2). rewrite H2, H1, app_assoc.
  repeat split; apply Forall_app; split; assumption.
Qed.

Lemma extends_record t evs s :
  forallb quiet evs = true -> extends t s (record t evs s).
Proof.
  intros Hq. exists (map (pair t) evs). simpl. split; [reflexivity |].
  split.
  - unfold by_thread. apply Forall_forall. intros x Hx.
    apply in_map_iff in Hx as (e & <- & _). reflexivity.
  - unfold all_quiet. apply Forall_forall. intros x Hx.
    apply in_map_iff in Hx as (e & <- & He). simpl.
    rewrite forallb_forall in Hq. now apply Hq.
Qed.

Lemma extends_do_release t r s :
  r <> Ventilators ->
  extends t s (do_release t r s)
  /\ ventilatorsAvailable (do_release t r s) = ventilatorsAvailable s.
Proof.
  intros Hr. split.
  - exists [(t, Released r)]. unfold do_release. destruct r; simpl;
      repeat split; repeat constructor; contradiction.
  - destruct r; try reflexivity. contradiction.
Qed.

Lemma extends_release_times t r n s :
  r <> Ventilators ->
  extends t s (release_times t r n s)
  /\ ventilatorsAvailable (release_times t r n s) = ventilatorsAvailable s.
Proof.
  intros Hr. unfold release_times.
  apply (Z_iter_invariant
           (fun x => extends t s x
                     /\ ventilatorsAvailable x = ventilatorsAvailable s)).
  - intros x [Hx Vx]. destruct (extends_do_release t r x Hr) as [H1 H2].
    split; [now apply extends_trans with x | congruence].
  - split; [apply extends_refl | reflexivity].
Qed.

(** A step of the arrival, resource, staff or main thread leaves the doctor
    threads and the ventilator pool alone and appends only quiet events. *)
Lemma env_step a w w' :
  (forall i, a <> RunDoctor i) ->
  step a w = Some w' ->
  doctorThreads w' = doctorThreads w
  /\ ventilatorsAvailable (shared w') = ventilatorsAvailable (shared w)
  /\ extends (thread_of a) (shared w) (shared w').
Proof.
  intros Ha Hs. destruct w as [s ds ar rg st mn].
  destruct a as [i | rnd b | r1 r2 r3 | |]; simpl in Hs.
  - now elim (Ha i).
  - unfold patientArrival in Hs. destruct ar as [pc pid]; simpl in Hs.
    destruct pc; try discriminate.
    + destruct (isRunning s); inversion Hs; subst; simpl;
        repeat split; now apply extends_same.
    + destruct (rnd <? 0); inversion Hs; subst; simpl.
      repeat split. now apply extends_record.
    + destruct (rnd <? 0); [discriminate |].
      unfold addPatient in Hs. destruct (queueMutex s); [discriminate |].
      inversion Hs; subst; simpl. repeat split.
      eexists. unfold displayState; simpl. rewrite <- app_assoc.
      split; [reflexivity |]. split; repeat constructor.
  - unfold dynamicResourceGeneration in Hs.
    destruct rg as [pc nd nn nr]; simpl in Hs.
    destruct pc; try discriminate.
    + destruct (isRunning s); inversion Hs; subst; simpl;
        repeat split; now apply extends_same.
    + inversion Hs; subst; simpl. repeat split. now apply extends_record.
    + destruct (queueMutex s); [discriminate |].
      destruct ((r1 <? 0) || (r2 <? 0) || (r3 <? 0)); inversion Hs; subst; simpl.
      repeat split. now apply extends_same.
    + inversion Hs; subst; simpl.
      destruct (extends_release_times ResourceThread Doctors nd s) as [H1 H2];
        [discriminate |]. auto.
    + inversion Hs; subst; simpl.
      destruct (extends_release_times ResourceThread Nurses nn s) as [H1 H2];
        [discriminate |]. auto.
    + inversion Hs; subst; simpl.
      destruct (extends_release_times ResourceThread ExamRooms nr s) as [H1 H2];
        [discriminate |]. auto.
    + inversion Hs; subst; simpl.
      destruct ((nd >? 0) || (nn >? 0) || (nr >? 0)); simpl; repeat split.
      * eexists. split; [reflexivity |]. split; repeat constructor.
      * now apply extends_same.
  - unfold staffBehavior in Hs. destruct st; try discriminate.
    + destruct (isRunning s); inversion Hs; subst; simpl;
        repeat split; now apply extends_same.
    + inversion Hs; subst; simpl. repeat split. now apply extends_record.
    + destruct (queueMutex s); inversion Hs; subst; simpl.
      repeat split. now apply extends_same.
    + unfold do_try_acquire, try_acquire in Hs. simpl in Hs.
      destruct (count (doctorsAvailable s) >? 0); inversion Hs; subst; simpl;
        repeat split; eexists; (split; [reflexivity |]); split; repeat constructor.
    + inversion Hs; subst; simpl. repeat split. now apply extends_record.
    + inversion Hs; subst; simpl. repeat split.
      eapply extends_trans; [| now apply extends_record].
      apply extends_do_release. discriminate.
    + inversion Hs; subst; simpl. repeat split. now apply extends_same.
  - unfold main in Hs. simpl in Hs. destruct mn; try discriminate.
    + inversion Hs; subst; simpl. repeat split.
      eexists. split; [reflexivity |]. split; repeat constructor.
    + destruct (all_joined _); inversion Hs; subst; simpl. repeat split.
      eexists. split; [reflexivity |]. split; repeat constructor.
Qed.

(** ** Steps of a doctor thread *)

Lemma holding_self_snoc i r h e :
  holding (DoctorThread i) r (h ++ [(DoctorThread i, e)])
  = holding (DoctorThread i) r h
    + match e with
      | Acquired r' => if Resource_eqb r' r then 1 else 0
      | TryAcquired r' true => if Resource_eqb r' r then 1 else 0
      | Released r' => if Resource_eqb r' r then -1 else 0
      | _ => 0
      end.
Proof.
  rewrite holding_app. cbn [holding]. unfold holding_delta.
  cbn [fst snd Thread_eqb]. rewrite Nat.eqb_refl. ring.
Qed.

Lemma last_dequeued_self_snoc i h e :
  last_dequeued (DoctorThread i) (h ++ [(DoctorThread i, e)])
  = match e with
    | Dequeued p => Some p
    | _ => last_dequeued (DoctorThread i) h
    end.
Proof.
  rewrite last_dequeued_app. cbn [last_dequeued Thread_eqb].
  rewrite Nat.eqb_refl. now destruct e.
Qed.

Lemma acquisitions_self_snoc i h e :
  acquisitions (DoctorThread i) (h ++ [(DoctorThread i, e)])
  = acquisitions (DoctorThread i) h
    ++ match e with Acquired r => [r] | _ => [] end.
Proof.
  rewrite acquisitions_app. cbn [acquisitions Thread_eqb].
  rewrite Nat.eqb_refl. now destruct e.
Qed.

Lemma is_HIGH_true p : is_HIGH p = true -> p = HIGH.
Proof. now destruct p. Qed.

Ltac doctor_inv_tac :=
  unfold doctor_inv in *; cbn [doctor_pc currentPatient ventilatorAllocated] in *;
  cbn [history record with_pool with_queue displayState do_release map
         ventilatorsAvailable count pool release];
  rewrite ?holding_self_snoc, ?last_dequeued_self_snoc, ?acquisitions_self_snoc,
    ?follows_order_app, ?expected_after_app, ?app_nil_r;
  unfold vent_holder in *;
  cbn [pc_holds pc_in_cycle pc_expects Resource_eqb Z.b2z doctor_pc
         currentPatient ventilatorAllocated andb follows_order expected_after
         fold_left next_in_order] in *;
  rewrite ?andb_false_r, ?andb_true_r in *;
  cbn [Z.b2z] in *.

Ltac new_events :=
  first
    [ exists []; rewrite app_nil_r; split; [reflexivity | constructor]
    | eexists; split; [cbn; reflexivity | repeat constructor]
    | eexists; split; [cbn; rewrite <- app_assoc; reflexivity | repeat constructor] ].

Ltac allowed_tac :=
  unfold event_allowed; cbn [fst snd];
  rewrite ?holding_self_snoc, ?last_dequeued_self_snoc;
  repeat split; eauto; try lia.

Ltac finish_doctor :=
  match goal with
  | Hd : _ /\ _ /\ _ /\ _ /\ _ /\ _ /\ _ |- _ =>
      destruct Hd as (? & ? & ? & ? & ? & ? & ?)
  end;
  repeat match goal with
    | |- _ /\ _ => split
    | |- history_ok (_ ++ [_]) => apply history_ok_snoc
    | |- event_allowed _ _ => allowed_tac
    end;
  try assumption; try lia; try discriminate;
  try solve [ repeat match goal with
                     | H : follows_order _ _ = _ |- _ => rewrite H; clear H
                     | H : expected_after _ _ = _ |- _ => rewrite H; clear H
                     end; reflexivity ];
  try solve [intros _; eauto].

Lemma treatPatient_preserves i d s d' s' :
  treatPatient i d s = Some (d', s') ->
  0 <= count (ventilatorsAvailable s) <= 1 ->
  doctor_inv i d (history s) ->
  history_ok (history s) ->
  (exists new, history s' = history s ++ new /\ by_thread (DoctorThread i) new)
  /\ 0 <= count (ventilatorsAvailable s')
  /\ count (ventilatorsAvailable s') + Z.b2z (vent_holder d')
     = count (ventilatorsAvailable s) + Z.b2z (vent_holder d)
  /\ doctor_inv i d' (history s')
  /\ history_ok (history s').
Proof.
  intros Hs Hv Hd Hh. destruct d as [pc cur va].
  assert (HMAX : 2 <= INT_MAX) by (unfold INT_MAX; lia).
  assert (HMIN : INT_MIN <= 0) by (unfold INT_MIN; lia).
  unfold treatPatient in Hs. cbn [doctor_pc currentPatient ventilatorAllocated] in Hs.
  destruct pc.
  - (* AtLoopHead *)
    destruct (isRunning s); inversion Hs; subst; clear Hs;
      (split; [new_events |]); doctor_inv_tac; finish_doctor.
  - (* AtWait *)
    destruct (queueMutex s); [discriminate |].
    destruct (negb (pq_empty (patientQueue s)) || negb (isRunning s));
      [| discriminate].
    destruct (negb (isRunning s) && pq_empty (patientQueue s)).
    + inversion Hs; subst; clear Hs.
      (split; [new_events |]); doctor_inv_tac; finish_doctor.
    + destruct (pq_top (patientQueue s)) as [p |]; [| discriminate].
      inversion Hs; subst; clear Hs.
      (split; [new_events |]); doctor_inv_tac; finish_doctor.
  - (* AtAcquireDoctor *)
    unfold do_acquire, acquire in Hs. cbn [pool] in Hs.
    destruct (count (doctorsAvailable s) >? 0); [| discriminate].
    inversion Hs; subst; clear Hs.
    (split; [new_events |]); doctor_inv_tac; finish_doctor.
  - (* AtAcquireNurse *)
    unfold do_acquire, acquire in Hs. cbn [pool] in Hs.
    destruct (count (nursesAvailable s) >? 0); [| discriminate].
    inversion Hs; subst; clear Hs.
    (split; [new_events |]); doctor_inv_tac; finish_doctor.
  - (* AtAcquireRoom *)
    unfold do_acquire, acquire in Hs. cbn [pool] in Hs.
    destruct (count (examRoomsAvailable s) >? 0); [| discriminate].
    inversion Hs; subst; clear Hs.
    (split; [new_events |]); doctor_inv_tac; finish_doctor.
  - (* AtVentilator *)
    destruct cur as [p |]; [| discriminate].
    destruct (is_HIGH (priority p)) eqn:Hhigh.
    + apply is_HIGH_true in Hhigh.
      unfold do_try_acquire, try_acquire in Hs. cbn [pool] in Hs.
      destruct (Z.gtb_spec (count (ventilatorsAvailable s)) 0) as [Hpos | Hle];
        inversion Hs; subst; clear Hs;
        (split; [new_events |]); doctor_inv_tac;
        rewrite ?int_decr_pos by lia; finish_doctor.
      all: match goal with
           | H : true = true -> _ |- _ =>
               destruct (H eq_refl) as (p0 & Hp0 & Hl); inversion Hp0; subst p0
           end; exists p; now split.
    + inversion Hs; subst; clear Hs.
      (split; [new_events |]); doctor_inv_tac; finish_doctor.
  - (* AtDisplayTreating *)
    destruct cur as [p |]; [| discriminate].
    inversion Hs; subst; clear Hs.
    (split; [new_events |]); doctor_inv_tac; finish_doctor.
  - (* AtTreating *)
    inversion Hs; subst; clear Hs.
    (split; [new_events |]); doctor_inv_tac; finish_doctor.
  - (* AtReleaseVentilator *)
    destruct va; inversion Hs; subst; clear Hs;
      (split; [new_events |]); doctor_inv_tac;
      rewrite ?int_incr_below by lia; finish_doctor.
  - (* AtReleaseDoctor *)
    inversion Hs; subst; clear Hs.
    (split; [new_events |]); doctor_inv_tac; finish_doctor.
  - (* AtReleaseNurse *)
    inversion Hs; subst; clear Hs.
    (split; [new_events |]); doctor_inv_tac; finish_doctor.
  - (* AtReleaseRoom *)
    inversion Hs; subst; clear Hs.
    (split; [new_events |]); doctor_inv_tac; finish_doctor.
  - (* AtDisplayFinished *)
    destruct cur as [p |]; [| discriminate].
    inversion Hs; subst; clear Hs.
    (split; [new_events |]); doctor_inv_tac; finish_doctor.
  - discriminate.
Qed.

(** ** The invariant holds in every reachable world *)

Lemma thread_of_not_doctor a j :
  (forall i, a <> RunDoctor i) -> thread_of a <> DoctorThread j.
Proof.
  intros Ha. destruct a; simpl; try discriminate. now elim (Ha i).
Qed.

Lemma world_inv_initial : world_inv initial_world.
Proof.
  unfold world_inv. simpl.
  split; [lia |]. split; [reflexivity |]. split; [| split; [| reflexivity]].
  - intros i d H. destruct i as [| [| [| k]]]; simpl in H;
      try (inversion H; subst; unfold doctor_inv; simpl; repeat split;
           try reflexivity; discriminate).
    now destruct k.
  - apply (history_ok_quiet _ []); [apply history_ok_nil | repeat constructor].
Qed.

Lemma world_inv_step a w w' :
  world_inv w -> step a w = Some w' -> world_inv w'.
Proof.
  intros (Hv0 & Hv1 & Hd & Hh & Hlen) Hs.
  pose proof (vent_holders_nonneg (doctorThreads w)) as Hnn.
  destruct a as [i | rnd b | r1 r2 r3 | |].
  1: { simpl in Hs.
       destruct (nth_error (doctorThreads w) i) as [d |] eqn:Ei; [| discriminate].
       destruct (treatPatient i d (shared w)) as [[d' s'] |] eqn:Et; [| discriminate].
       inversion Hs; subst; clear Hs.
       destruct (treatPatient_preserves _ _ _ _ _ Et) as
         ((new & Hnew & Hby) & Hv0' & Hv1' & Hd' & Hh');
         [lia | now apply Hd | exact Hh |].
       unfold world_inv; simpl.
       split; [| split; [| split; [| split]]].
       - exact Hv0'.
       - rewrite (vent_holders_replace_nth _ _ _ _ Ei). lia.
       - intros j dj Hj. destruct (Nat.eq_dec i j) as [<- | Hij].
         + rewrite (nth_error_replace_nth_eq _ _ _ _ Ei) in Hj.
           inversion Hj; subst. exact Hd'.
         + rewrite nth_error_replace_nth_neq in Hj by exact Hij.
           rewrite Hnew. apply doctor_inv_other with (DoctorThread i);
             [congruence | exact Hby | now apply Hd].
       - exact Hh'.
       - now rewrite replace_nth_length. }
  all: match type of Hs with
       | step ?a _ = _ =>
           assert (Ha : forall i, a <> RunDoctor i) by (intros i; discriminate);
           destruct (env_step a w w' Ha Hs) as (Hds & Hvs & new & Hnew & Hby & Hq)
       end;
       unfold world_inv; rewrite Hds, Hvs, Hnew;
       (split; [| split; [| split; [| split]]]); try assumption;
         [ intros j dj Hj; eapply doctor_inv_other;
             [ eapply thread_of_not_doctor; exact Ha | exact Hby | now apply Hd ]
         | now apply history_ok_quiet ].
Qed.

Lemma reachable_world_inv w : reachable w -> world_inv w.
Proof.
  apply reachable_ind.
  - exact world_inv_initial.
  - intros a w0 w1 _ H0 Hs. now apply world_inv_step with a w0.
Qed.

(** ** What every reachable history satisfies *)

Lemma reachable_history_ok w h1 e h2 :
  reachable w -> history (shared w) = h1 ++ e :: h2 -> event_allowed h1 e.
Proof.
  intros Hr. destruct (reachable_world_inv w Hr) as (_ & _ & _ & Hh & _).
  apply Hh.
Qed.

(** C9.  In every reachable state the ventilator semaphore counts 0 or 1,
    never more than its initial 1: a ventilator is released only by a doctor
    thread that holds one, a doctor thread holds none when it dequeues its
    next patient, and [dynamicResourceGeneration] never releases a
    ventilator. *)
Theorem ventilator_pool_never_exceeds_one (w : World) :
  reachable w ->
  0 <= available (ventilatorsAvailable (shared w)) <= 1
  /\ (forall h1 t h2,
        history (shared w) = h1 ++ (t, Released Ventilators) :: h2 ->
        (exists i, t = DoctorThread i) /\ holding t Ventilators h1 = 1)
  /\ (forall h1 t p h2,
        history (shared w) = h1 ++ (t, Dequeued p) :: h2 ->
        holding t Ventilators h1 = 0)
  /\ ~ In (ResourceThread, Released Ventilators) (history (shared w)).
Proof.
  intros Hr. pose proof (reachable_world_inv w Hr) as (Hv0 & Hv1 & _ & Hh & _).
  pose proof (vent_holders_nonneg (doctorThreads w)) as Hnn.
  split; [unfold available; lia |].
  assert (Hrel : forall h1 t h2,
             history (shared w) = h1 ++ (t, Released Ventilators) :: h2 ->
             (exists i, t = DoctorThread i) /\ holding t Ventilators h1 = 1).
  { intros h1 t h2 Hsplit. destruct (Hh _ _ _ Hsplit) as [H1 H2]. now split. }
  split; [exact Hrel |]. split.
  - intros h1 t p h2 Hsplit. exact (Hh _ _ _ Hsplit).
  - intros Hin. apply in_split in Hin as (h1 & h2 & Hsplit).
    destruct (Hrel _ _ _ Hsplit) as [[i Hi] _]. discriminate Hi.
Qed.

Lemma ventilator_pool_never_exceeds_one_witness :
  exists w,
    run one_treatment_schedule initial_world = Some w
    /\ In (DoctorThread 0, Released Ventilators) (history (shared w))
    /\ 0 <= available (ventilatorsAvailable (shared w)) <= 1.
Proof.
  eexists. split; [vm_compute; reflexivity |]. split.
  - vm_compute. tauto.
  - apply ventilator_pool_never_exceeds_one.
    exists one_treatment_schedule. vm_compute. reflexivity.
Defined.



(** ** Shutdown *)

(** The loop test of [treatPatient] ends the thread once [isRunning] is
    false, whatever the queue holds. *)
Lemma loop_head_returns_when_stopped i d s :
  doctor_pc d = AtLoopHead -> isRunning s = false ->
  exists d', treatPatient i d s = Some (d', s) /\ doctor_pc d' = DoctorReturned.
Proof.
  intros Hpc Hrun. unfold treatPatient. rewrite Hpc, Hrun.
  eexists; split; reflexivity.
Qed.

(** C2, evaluated.  After [before_shutdown] patient 4 is queued and
    [isRunning] is still true.  [main] then clears the flag; once the doctor
    threads have finished their current patients all three have returned,
    and patient 4 is still in the queue, never dequeued. *)
Theorem shutdown_leaves_patient_queued :
  exists w0 w,
    run shutdown_schedule initial_world = Some w
    /\ run before_shutdown initial_world = Some w0
    /\ isRunning (shared w0) = true
    /\ patientQueue (shared w0) = [mkPatient 4 "Patient_4" HIGH]
    /\ run (RunMain :: after_shutdown) w0 = Some w
    /\ isRunning (shared w) = false
    /\ forallb doctor_returned (doctorThreads w) = true
    /\ patientQueue (shared w) = [mkPatient 4 "Patient_4" HIGH]
    /\ ~ In (mkPatient 4 "Patient_4" HIGH) (dequeued_patients (history (shared w))).
Proof.
  eexists. eexists. split; [vm_compute; reflexivity |].
  split; [vm_compute; reflexivity |].
  split; [reflexivity |]. split; [reflexivity |].
  split; [vm_compute; reflexivity |].
  split; [reflexivity |]. split; [reflexivity |]. split; [reflexivity |].
  vm_compute. intros [H | [H | [H | []]]]; discriminate H.
Qed.

(** ** After shutdown, whatever the schedule *)

Lemma dequeued_patients_app h h' :
  dequeued_patients (h ++ h') = dequeued_patients h ++ dequeued_patients h'.
Proof. unfold dequeued_patients. apply flat_map_app. Qed.

Lemma dequeued_patients_quiet new :
  all_quiet new -> dequeued_patients new = [].
Proof.
  induction 1 as [| [t e] new H _ IH]; [reflexivity |].
  unfold dequeued_patients in *. simpl in *. rewrite IH.
  destruct e; try reflexivity; discriminate.
Qed.

Lemma release_times_running t r n s :
  isRunning (release_times t r n s) = isRunning s.
Proof.
  unfold release_times.
  apply (Z_iter_invariant (fun x => isRunning x = isRunning s)).
  - intros x Hx. rewrite <- Hx. now destruct r.
  - reflexivity.
Qed.

Lemma waiting_doctors_replace_nth d' l : forall i d,
  nth_error l i = Some d ->
  (waiting_doctors (replace_nth i d' l) + waiting d
   = waiting_doctors l + waiting d')%nat.
Proof.
  induction l as [| z l IH]; intros [| i] d H; simpl in *; try discriminate.
  - inversion H; subst. lia.
  - specialize (IH _ _ H). lia.
Qed.

Lemma waiting_doctors_le l : (waiting_doctors l <= List.length l)%nat.
Proof.
  induction l as [| d l IH]; simpl; [lia |].
  unfold waiting. destruct (doctor_pc d); lia.
Qed.

(** Once [isRunning] is false a doctor thread dequeues only from the wait
    it is already in, and never enters the wait again. *)
Lemma treatPatient_stopped i d s d' s' :
  isRunning s = false ->
  treatPatient i d s = Some (d', s') ->
  isRunning s' = false
  /\ (List.length (dequeued_patients (history s')) + waiting d'
      <= List.length (dequeued_patients (history s)) + waiting d)%nat.
Proof.
  intros Hrun Hs. destruct d as [pc cur va].
  unfold treatPatient in Hs. cbn [doctor_pc currentPatient ventilatorAllocated] in Hs.
  unfold waiting. rewrite Hrun in Hs.
  destruct pc; cbn [doctor_pc]; try discriminate;
    repeat match type of Hs with
      | (if ?c then _ else _) = _ => destruct c
      | match ?c with _ => _ end = _ => destruct c eqn:?
      | (let (_, _) := ?c in _) = _ => destruct c eqn:?
      end;
    try discriminate; inversion Hs; subst; clear Hs;
    repeat match goal with
      | H : do_acquire _ ?r _ = Some _ |- _ =>
          unfold do_acquire in H; destruct (acquire _); inversion H; subst; clear H
      | H : do_try_acquire _ _ _ = _ |- _ =>
          unfold do_try_acquire in H; destruct (try_acquire _); inversion H;
          subst; clear H
      end;
    cbn [doctor_pc history record with_pool with_queue displayState do_release
           isRunning map];
    rewrite ?dequeued_patients_app, ?length_app; simpl; split; auto; lia.
Qed.

Lemma step_stopped a w w' :
  isRunning (shared w) = false ->
  step a w = Some w' ->
  isRunning (shared w') = false
  /\ (dequeue_potential w' <= dequeue_potential w)%nat.
Proof.
  intros Hrun Hs. unfold dequeue_potential.
  destruct a as [i | rnd b | r1 r2 r3 | |].
  1: { simpl in Hs.
       destruct (nth_error (doctorThreads w) i) as [d |] eqn:Ei; [| discriminate].
       destruct (treatPatient i d (shared w)) as [[d' s'] |] eqn:Et; [| discriminate].
       inversion Hs; subst; clear Hs. simpl.
       destruct (treatPatient_stopped _ _ _ _ _ Hrun Et) as [H1 H2].
       pose proof (waiting_doctors_replace_nth d' _ _ _ Ei). split; [exact H1 | lia]. }
  all: match type of Hs with
       | step ?a _ = _ =>
           assert (Ha : forall i, a <> RunDoctor i) by (intros i; discriminate);
           destruct (env_step a w w' Ha Hs) as (Hds & _ & new & Hnew & _ & Hq)
       end;
       rewrite Hds, Hnew, dequeued_patients_app, (dequeued_patients_quiet _ Hq),
         app_nil_r;
       (split; [| lia]).
  - simpl in Hs. unfold patientArrival, addPatient in Hs. rewrite Hrun in Hs.
    destruct (arrival_pc (patientThread w)); try discriminate;
      repeat match type of Hs with
        | context [if ?c then _ else _] => destruct c
        end; try discriminate; inversion Hs; subst; simpl; exact Hrun.
  - simpl in Hs. unfold dynamicResourceGeneration in Hs. rewrite Hrun in Hs.
    destruct (resource_pc (resourceThread w)); try discriminate;
      repeat match type of Hs with
        | context [if ?c then _ else _] => destruct c
        end; try discriminate; inversion Hs; subst; simpl;
      rewrite ?release_times_running; exact Hrun.
  - simpl in Hs. unfold staffBehavior, do_try_acquire in Hs. rewrite Hrun in Hs.
    destruct (staffBehaviorThread w); try discriminate;
      unfold try_acquire in Hs;
      repeat match type of Hs with
        | context [if ?c then _ else _] => destruct c
        end; try discriminate; inversion Hs; subst; simpl; exact Hrun.
  - simpl in Hs. unfold main in Hs.
    destruct (mainThread w); try discriminate;
      repeat match type of Hs with
        | context [if ?c then _ else _] => destruct c
        end; try discriminate; inversion Hs; subst; simpl;
      reflexivity || exact Hrun.
Qed.

Lemma run_stopped sched : forall w w',
  isRunning (shared w) = false ->
  run sched w = Some w' ->
  isRunning (shared w') = false
  /\ (dequeue_potential w' <= dequeue_potential w)%nat.
Proof.
  induction sched as [| a sched IH]; intros w w' Hrun Hs; simpl in Hs.
  - inversion Hs; subst. split; [exact Hrun | lia].
  - destruct (step a w) as [w1 |] eqn:E; [| discriminate].
    destruct (step_stopped _ _ _ Hrun E) as [H1 H2].
    destruct (IH _ _ H1 Hs) as [H3 H4]. split; [exact H3 | lia].
Qed.

(** From a reachable state in which [isRunning] is false, no schedule makes
    the three doctor threads dequeue more than three further patients. *)
Lemma at_most_one_more_patient_per_doctor w sched w' :
  reachable w ->
  isRunning (shared w) = false ->
  run sched w = Some w' ->
  (List.length (dequeued_patients (history (shared w')))
   <= List.length (dequeued_patients (history (shared w))) + 3)%nat.
Proof.
  intros Hr Hrun Hs.
  destruct (reachable_world_inv w Hr) as (_ & _ & _ & _ & Hlen).
  destruct (run_stopped _ _ _ Hrun Hs) as [_ H].
  unfold dequeue_potential in H.
  pose proof (waiting_doctors_le (doctorThreads w)). lia.
Qed.

(** ** One thread running alone *)

Lemma replace_nth_same {A} (l : list A) : forall i x,
  nth_error l i = Some x -> replace_nth i x l = l.
Proof.
  induction l as [| y l IH]; intros [| i] x H; simpl in *; try discriminate.
  - now inversion H.
  - now rewrite IH.
Qed.

Lemma replace_nth_twice {A} (x y : A) l : forall i,
  replace_nth i x (replace_nth i y l) = replace_nth i x l.
Proof.
  induction l as [| z l IH]; intros [| i]; simpl; try reflexivity.
  now rewrite IH.
Qed.

Lemma run_doctor_steps n : forall w i d d' s',
  nth_error (doctorThreads w) i = Some d ->
  doctor_steps n i d (shared w) = Some (d', s') ->
  run (repeat (RunDoctor i) n) w
  = Some (mkWorld s' (replace_nth i d' (doctorThreads w)) (patientThread w)
            (resourceThread w) (staffBehaviorThread w) (mainThread w)).
Proof.
  induction n as [| n IH]; intros w i d d' s' Hi Hs; simpl in *.
  - inversion Hs; subst. rewrite (replace_nth_same _ _ _ Hi). now destruct w.
  - rewrite Hi.
    destruct (treatPatient i d (shared w)) as [[d1 s1] |]; [| discriminate].
    erewrite IH; [| simpl; eapply nth_error_replace_nth_eq; exact Hi | exact Hs].
    simpl. now rewrite replace_nth_twice.
Qed.

Lemma run_staff_steps n : forall w,
  run (repeat RunStaffBehavior n) w
  = match staff_steps n (staffBehaviorThread w) (shared w) with
    | Some (pc', s') =>
        Some (mkWorld s' (doctorThreads w) (patientThread w) (resourceThread w)
                pc' (mainThread w))
    | None => None
    end.
Proof.
  induction n as [| n IH]; intros w; simpl.
  - now destruct w.
  - destruct (staffBehavior (staffBehaviorThread w) (shared w)) as [[pc1 s1] |];
      [| reflexivity].
    now rewrite IH.
Qed.

Lemma doctor_steps_app n m i : forall d s,
  doctor_steps (n + m) i d s
  = match doctor_steps n i d s with
    | Some (d', s') => doctor_steps m i d' s'
    | None => None
    end.
Proof.
  induction n as [| n IH]; intros d s; simpl; [reflexivity |].
  destruct (treatPatient i d s) as [[d1 s1] |]; [apply IH | reflexivity].
Qed.

Lemma pq_top_nonempty q p : pq_top q = Some p -> pq_empty q = false.
Proof. destruct q; [discriminate | reflexivity]. Qed.

Ltac sym_step :=
  cbn -[int_decr int_incr Z.gtb Z.add Z.sub Z.of_nat pq_top pq_pop pq_empty
          is_HIGH String.append priorityToString app].

(** The four steps from the wait on the queue to the ventilator test. *)
Lemma doctor_begin_cycle i cur va s p :
  queueMutex s = false ->
  pq_top (patientQueue s) = Some p ->
  0 < count (doctorsAvailable s) <= INT_MAX ->
  0 < count (nursesAvailable s) <= INT_MAX ->
  0 < count (examRoomsAvailable s) <= INT_MAX ->
  doctor_steps 4 i (mkDoctor AtWait cur va) s
  = Some (mkDoctor AtVentilator (Some p) va,
          mkShared (pq_pop (patientQueue s)) false
            (mkSemaphore (count (doctorsAvailable s) - 1))
            (mkSemaphore (count (nursesAvailable s) - 1))
            (mkSemaphore (count (examRoomsAvailable s) - 1))
            (ventilatorsAvailable s) (isRunning s)
            (history s
             ++ map (pair (DoctorThread i))
                  [Dequeued p; Acquired Doctors; Acquired Nurses;
                   Acquired ExamRooms])).
Proof.
  destruct s as [q m [cd] [cn] [cr] cv rn h]. cbn [count doctorsAvailable
    nursesAvailable examRoomsAvailable ventilatorsAvailable patientQueue
    queueMutex isRunning history].
  intros -> Htop Hd Hn Hr.
  pose proof (pq_top_nonempty _ _ Htop) as Hne.
  unfold doctor_steps, treatPatient, do_acquire, acquire.
  sym_step. rewrite Hne, Htop, andb_false_r. sym_step.
  destruct (Z.gtb_spec cd 0); [| lia]. sym_step.
  destruct (Z.gtb_spec cn 0); [| lia]. sym_step.
  destruct (Z.gtb_spec cr 0); [| lia].
  rewrite !int_decr_pos by lia.
  unfold record; cbn [history patientQueue queueMutex doctorsAvailable
    nursesAvailable examRoomsAvailable ventilatorsAvailable isRunning map];
  rewrite <- ?app_assoc; cbn [app]. reflexivity.
Qed.

(** The eight steps from the ventilator test to the end of the treatment. *)
Lemma doctor_finish_cycle i p va s :
  0 <= count (doctorsAvailable s) < INT_MAX ->
  0 <= count (nursesAvailable s) < INT_MAX ->
  0 <= count (examRoomsAvailable s) < INT_MAX ->
  int_range (count (ventilatorsAvailable s)) ->
  let cv := count (ventilatorsAvailable s) in
  let granted := ventilator_granted p cv in
  doctor_steps 8 i (mkDoctor AtVentilator (Some p) va) s
  = Some (mkDoctor AtLoopHead (Some p) granted,
          mkShared (patientQueue s) (queueMutex s)
            (mkSemaphore (count (doctorsAvailable s) + 1))
            (mkSemaphore (count (nursesAvailable s) + 1))
            (mkSemaphore (count (examRoomsAvailable s) + 1))
            (ventilatorsAvailable s) (isRunning s)
            (history s
             ++ map (pair (DoctorThread i))
                  ((if is_HIGH (priority p) then
                      if cv >? 0 then [TryAcquired Ventilators true]
                      else [TryAcquired Ventilators false;
                            Printed ("Ventilator unavailable for " ++ name p)%string]
                    else [])
                   ++ after_ventilator i p granted
                        (count (doctorsAvailable s) + 1)
                        (count (nursesAvailable s) + 1)
                        (count (examRoomsAvailable s) + 1) cv))).
Proof.
  destruct s as [q m [cd] [cn] [cr] [cv0] rn h]. cbn [count doctorsAvailable
    nursesAvailable examRoomsAvailable ventilatorsAvailable patientQueue
    queueMutex isRunning history].
  intros Hd Hn Hr [Hv1 Hv2].
  unfold ventilator_granted, after_ventilator.
  replace (cd + 1 - 1) with cd by lia.
  replace (cn + 1 - 1) with cn by lia.
  replace (cr + 1 - 1) with cr by lia.
  assert (HMIN : INT_MIN <= 0) by (unfold INT_MIN; lia).
  unfold doctor_steps, treatPatient, do_try_acquire, try_acquire, do_release,
    release, displayState, available.
  sym_step.
  destruct (is_HIGH (priority p)); sym_step;
    [destruct (Z.gtb_spec cv0 0); sym_step |];
    rewrite ?int_decr_pos by lia; rewrite ?int_incr_below by lia;
    unfold record; cbn [history patientQueue queueMutex doctorsAvailable
      nursesAvailable examRoomsAvailable ventilatorsAvailable isRunning map];
    rewrite <- ?app_assoc; cbn [app];
    replace (cv0 - 1 + 1) with cv0 by lia; reflexivity.
Qed.

Lemma treatment_events_balanced i p cd cn cr cv r :
  holding (DoctorThread i) r
    (map (pair (DoctorThread i)) (treatment_events i p cd cn cr cv)) = 0.
Proof.
  unfold treatment_events, after_ventilator, ventilator_granted.
  destruct (is_HIGH (priority p)), (cv >? 0), r;
    cbn [map app andb holding]; unfold holding_delta;
    cbn [fst snd Thread_eqb]; rewrite !Nat.eqb_refl; reflexivity.
Qed.

(** C10.  A doctor thread waiting on a non-empty queue, with a doctor, a
    nurse and an exam room available and nothing else running, completes a
    treatment in twelve steps: the patient at the top of the queue is
    removed, every semaphore ends with the count it started with, what the
    thread holds of each resource is what it held before, and the rest of
    the state is untouched. *)
Theorem treatment_cycle_has_no_net_effect
    (w : World) (i : nat) (d : Doctor) (p : Patient) :
  nth_error (doctorThreads w) i = Some d ->
  doctor_pc d = AtWait ->
  queueMutex (shared w) = false ->
  pq_top (patientQueue (shared w)) = Some p ->
  0 < available (doctorsAvailable (shared w)) <= INT_MAX ->
  0 < available (nursesAvailable (shared w)) <= INT_MAX ->
  0 < available (examRoomsAvailable (shared w)) <= INT_MAX ->
  int_range (available (ventilatorsAvailable (shared w))) ->
  exists w',
    run (repeat (RunDoctor i) 12) w = Some w'
    /\ doctorsAvailable (shared w') = doctorsAvailable (shared w)
    /\ nursesAvailable (shared w') = nursesAvailable (shared w)
    /\ examRoomsAvailable (shared w') = examRoomsAvailable (shared w)
    /\ ventilatorsAvailable (shared w') = ventilatorsAvailable (shared w)
    /\ patientQueue (shared w') = pq_pop (patientQueue (shared w))
    /\ S (List.length (patientQueue (shared w')))
       = List.length (patientQueue (shared w))
    /\ queueMutex (shared w') = false
    /\ isRunning (shared w') = isRunning (shared w)
    /\ history (shared w')
       = history (shared w)
         ++ map (pair (DoctorThread i))
              (treatment_events i p
                 (available (doctorsAvailable (shared w)))
                 (available (nursesAvailable (shared w)))
                 (available (examRoomsAvailable (shared w)))
                 (available (ventilatorsAvailable (shared w))))
    /\ (forall r, holding (DoctorThread i) r (history (shared w'))
                  = holding (DoctorThread i) r (history (shared w)))
    /\ (exists d', doctorThreads w' = replace_nth i d' (doctorThreads w)
                   /\ doctor_pc d' = AtLoopHead)
    /\ patientThread w' = patientThread w
    /\ resourceThread w' = resourceThread w
    /\ staffBehaviorThread w' = staffBehaviorThread w
    /\ mainThread w' = mainThread w.
Proof.
  intros Hi Hpc Hm Htop Hd Hn Hr Hv. unfold available in *.
  destruct d as [pc cur va]. simpl in Hpc. subst pc.
  pose proof (doctor_begin_cycle i cur va (shared w) p Hm Htop Hd Hn Hr) as H4.
  assert (H12 : doctor_steps (4 + 8) i (mkDoctor AtWait cur va) (shared w)
                = doctor_steps 8 i (mkDoctor AtVentilator (Some p) va)
                    (mkShared (pq_pop (patientQueue (shared w))) false
                       (mkSemaphore (count (doctorsAvailable (shared w)) - 1))
                       (mkSemaphore (count (nursesAvailable (shared w)) - 1))
                       (mkSemaphore (count (examRoomsAvailable (shared w)) - 1))
                       (ventilatorsAvailable (shared w)) (isRunning (shared w))
                       (history (shared w)
                        ++ map (pair (DoctorThread i))
                             [Dequeued p; Acquired Doctors; Acquired Nurses;
                              Acquired ExamRooms]))).
  { rewrite doctor_steps_app, H4. reflexivity. }
  rewrite doctor_finish_cycle in H12; cbn [count doctorsAvailable
    nursesAvailable examRoomsAvailable ventilatorsAvailable] in *;
    try lia; try exact Hv.
  cbn [patientQueue queueMutex isRunning history Nat.add] in H12.
  rewrite (run_doctor_steps 12 w i _ _ _ Hi H12).
  eexists. split; [reflexivity |]. cbn [shared doctorThreads patientThread
    resourceThread staffBehaviorThread mainThread patientQueue queueMutex
    isRunning history doctorsAvailable nursesAvailable examRoomsAvailable
    ventilatorsAvailable].
  assert (Hhist :
    (history (shared w)
     ++ map (pair (DoctorThread i))
          [Dequeued p; Acquired Doctors; Acquired Nurses; Acquired ExamRooms])
    ++ map (pair (DoctorThread i))
         ((if is_HIGH (priority p)
           then
             if count (ventilatorsAvailable (shared w)) >? 0
             then [TryAcquired Ventilators true]
             else [TryAcquired Ventilators false;
                   Printed ("Ventilator unavailable for " ++ name p)%string]
           else [])
          ++ after_ventilator i p
               (ventilator_granted p (count (ventilatorsAvailable (shared w))))
               (count (doctorsAvailable (shared w)) - 1 + 1)
               (count (nursesAvailable (shared w)) - 1 + 1)
               (count (examRoomsAvailable (shared w)) - 1 + 1)
               (count (ventilatorsAvailable (shared w))))
    = history (shared w)
      ++ map (pair (DoctorThread i))
           (treatment_events i p (count (doctorsAvailable (shared w)))
              (count (nursesAvailable (shared w)))
              (count (examRoomsAvailable (shared w)))
              (count (ventilatorsAvailable (shared w))))).
  { unfold treatment_events. rewrite <- app_assoc, <- map_app.
    replace (count (doctorsAvailable (shared w)) - 1 + 1)
      with (count (doctorsAvailable (shared w))) by lia.
    replace (count (nursesAvailable (shared w)) - 1 + 1)
      with (count (nursesAvailable (shared w))) by lia.
    replace (count (examRoomsAvailable (shared w)) - 1 + 1)
      with (count (examRoomsAvailable (shared w))) by lia.
    reflexivity. }
  rewrite Hhist.
  repeat match goal with |- _ /\ _ => split end; try reflexivity.
  - destruct (doctorsAvailable (shared w)); simpl; f_equal; lia.
  - destruct (nursesAvailable (shared w)); simpl; f_equal; lia.
  - destruct (examRoomsAvailable (shared w)); simpl; f_equal; lia.
  - apply pq_pop_length. intros E. rewrite E in Htop. discriminate.
  - intros r. rewrite holding_app, treatment_events_balanced. lia.
  - eexists. split; reflexivity.
Qed.

Lemma treatment_cycle_has_no_net_effect_witness :
  exists w,
    run ([RunDoctor 0] ++ arrive 0) initial_world = Some w
    /\ exists w',
         run (repeat (RunDoctor 0) 12) w = Some w'
         /\ doctorsAvailable (shared w') = doctorsAvailable (shared w)
         /\ ventilatorsAvailable (shared w') = ventilatorsAvailable (shared w)
         /\ patientQueue (shared w') = pq_pop (patientQueue (shared w)).
Proof.
  eexists. split; [vm_compute; reflexivity |].
  match goal with
  | |- exists w', run _ ?w = _ /\ _ =>
      destruct (treatment_cycle_has_no_net_effect w 0%nat (mkDoctor AtWait None false)
                  (mkPatient 1 "Patient_1" HIGH))
        as (w' & Hrun & HD & _ & _ & HV & HQ & _);
        try reflexivity;
        try (vm_compute; split; [reflexivity | discriminate]);
        try (vm_compute; split; discriminate)
  end.
  exists w'. repeat split; assumption.
Defined.

(** ** The ventilator *)

(** A HIGH patient's treatment when no ventilator is free: eight steps, none
    of which can block. *)
Lemma doctor_finish_unavailable i p va s :
  priority p = HIGH ->
  count (ventilatorsAvailable s) <= 0 ->
  doctor_steps 8 i (mkDoctor AtVentilator (Some p) va) s
  = Some (mkDoctor AtLoopHead (Some p) false,
          mkShared (patientQueue s) (queueMutex s)
            (release (doctorsAvailable s)) (release (nursesAvailable s))
            (release (examRoomsAvailable s)) (ventilatorsAvailable s)
            (isRunning s)
            (history s
             ++ map (pair (DoctorThread i))
                  [TryAcquired Ventilators false;
                   Printed ("Ventilator unavailable for " ++ name p)%string;
                   Displayed "Doctor" (Z.of_nat i + 1) (name p) "High"
                     "Treating..."
                     (available (doctorsAvailable s))
                     (available (nursesAvailable s))
                     (available (examRoomsAvailable s))
                     (available (ventilatorsAvailable s));
                   Slept 2; Released Doctors; Released Nurses;
                   Released ExamRooms;
                   Displayed "Doctor" (Z.of_nat i + 1) (name p) "High"
                     "Finished"
                     (available (release (doctorsAvailable s)))
                     (available (release (nursesAvailable s)))
                     (available (release (examRoomsAvailable s)))
                     (available (ventilatorsAvailable s))])).
Proof.
  destruct p as [pid pname pprio]. cbn [priority name]. intros -> Hv.
  destruct s as [q m [cd] [cn] [cr] [cv0] rn h].
  cbn [count ventilatorsAvailable] in Hv.
  unfold doctor_steps, treatPatient, do_try_acquire, try_acquire, do_release,
    release, displayState, available.
  sym_step. cbn [is_HIGH priority_value Z.eqb priority priorityToString].
  destruct (Z.gtb_spec cv0 0); [lia |]. sym_step.
  unfold record; cbn [history patientQueue queueMutex doctorsAvailable
    nursesAvailable examRoomsAvailable ventilatorsAvailable isRunning map
    priorityToString priority name];
  rewrite <- ?app_assoc; cbn [app]. reflexivity.
Qed.

(** C4.  In every reachable history a ventilator is only ever requested
    with [try_acquire], by a thread whose current patient is HIGH and that
    holds a doctor, a nurse and an exam room at that moment.  And whenever a
    doctor thread reaches the ventilator test with a HIGH patient and no
    ventilator free, its next eight steps all run: the failed attempt is
    reported, "Treating..." is displayed, the three resources are released
    and "Finished" is displayed. *)
Theorem ventilator_is_optional :
  (forall w, reachable w ->
     (forall h1 t ok h2,
         history (shared w) = h1 ++ (t, TryAcquired Ventilators ok) :: h2 ->
         (exists p, last_dequeued t h1 = Some p /\ priority p = HIGH)
         /\ holding t Doctors h1 = 1 /\ holding t Nurses h1 = 1
         /\ holding t ExamRooms h1 = 1)
     /\ (forall t, ~ In (t, Acquired Ventilators) (history (shared w))))
  /\ (forall w i d p,
        nth_error (doctorThreads w) i = Some d ->
        doctor_pc d = AtVentilator ->
        currentPatient d = Some p ->
        priority p = HIGH ->
        available (ventilatorsAvailable (shared w)) <= 0 ->
        exists w',
          run (repeat (RunDoctor i) 8) w = Some w'
          /\ (exists d', doctorThreads w' = replace_nth i d' (doctorThreads w)
                         /\ doctor_pc d' = AtLoopHead
                         /\ ventilatorAllocated d' = false)
          /\ ventilatorsAvailable (shared w') = ventilatorsAvailable (shared w)
          /\ history (shared w')
             = history (shared w)
               ++ map (pair (DoctorThread i))
                    [TryAcquired Ventilators false;
                     Printed ("Ventilator unavailable for " ++ name p)%string;
                     Displayed "Doctor" (Z.of_nat i + 1) (name p) "High"
                       "Treating..."
                       (available (doctorsAvailable (shared w)))
                       (available (nursesAvailable (shared w)))
                       (available (examRoomsAvailable (shared w)))
                       (available (ventilatorsAvailable (shared w)));
                     Slept 2; Released Doctors; Released Nurses;
                     Released ExamRooms;
                     Displayed "Doctor" (Z.of_nat i + 1) (name p) "High"
                       "Finished"
                       (available (release (doctorsAvailable (shared w))))
                       (available (release (nursesAvailable (shared w))))
                       (available (release (examRoomsAvailable (shared w))))
                       (available (ventilatorsAvailable (shared w)))])
  /\ (exists w',
        run (repeat (RunDoctor 0) 4) degraded_service_start
        = Some degraded_service_world
        /\ run (repeat (RunDoctor 0) 12) degraded_service_start = Some w'
        /\ history (shared w')
           = map (pair (DoctorThread 0))
               [Dequeued (mkPatient 1 "Patient_1" HIGH);
                Acquired Doctors; Acquired Nurses; Acquired ExamRooms;
                TryAcquired Ventilators false;
                Printed "Ventilator unavailable for Patient_1";
                Displayed "Doctor" 1 "Patient_1" "High" "Treating..." 0 0 0 0;
                Slept 2; Released Doctors; Released Nurses; Released ExamRooms;
                Displayed "Doctor" 1 "Patient_1" "High" "Finished" 1 1 1 0]).
Proof.
  split; [| split].
  3: { eexists. split; [vm_compute; reflexivity |].
       split; [vm_compute; reflexivity |]. vm_compute. reflexivity. }
  - intros w Hr. split.
    + intros h1 t ok h2 Hsplit.
      exact (reachable_history_ok w _ _ _ Hr Hsplit).
    + intros t Hin. apply in_split in Hin as (h1 & h2 & Hsplit).
      exact (reachable_history_ok w _ _ _ Hr Hsplit).
  - intros w i d p Hi Hpc Hcur Hprio Hv.
    destruct d as [pc cur va]. simpl in Hpc, Hcur. subst pc cur.
    pose proof (doctor_finish_unavailable i p va (shared w) Hprio Hv) as H8.
    rewrite (run_doctor_steps 8 w i _ _ _ Hi H8).
    eexists. split; [reflexivity |]. simpl. split; [| split; reflexivity].
    eexists. repeat split.
Qed.

Lemma ventilator_is_optional_witness :
  (exists w,
      run one_treatment_schedule initial_world = Some w
      /\ forall t, ~ In (t, Acquired Ventilators) (history (shared w)))
  /\ (exists w',
        run (repeat (RunDoctor 0) 8) degraded_service_world = Some w'
        /\ In (DoctorThread 0, Printed "Ventilator unavailable for Patient_1")
             (history (shared w'))
        /\ ventilatorsAvailable (shared w') = mkSemaphore 0).
Proof.
  split.
  - eexists. split; [vm_compute; reflexivity |].
    apply (proj1 ventilator_is_optional).
    exists one_treatment_schedule. vm_compute. reflexivity.
  - destruct (proj1 (proj2 ventilator_is_optional) degraded_service_world 0%nat
                (mkDoctor AtVentilator (Some (mkPatient 1 "Patient_1" HIGH)) false)
                (mkPatient 1 "Patient_1" HIGH))
      as (w' & Hrun & _ & HV & Hh); try reflexivity.
    exists w'. split; [exact Hrun |]. split; [| exact HV].
    rewrite Hh. simpl. tauto.
Defined.

(** ** Staff breaks *)

Lemma staff_step_inv s0 pc s pc' s' :
  0 <= count (doctorsAvailable s0) <= INT_MAX ->
  staff_inv s0 pc s ->
  staffBehavior pc s = Some (pc', s') ->
  staff_inv s0 pc' s'.
Proof.
  intros Hc (Hn & Hr & Hv & Hq & Hd) Hs.
  assert (HMIN : INT_MIN <= 0) by (unfold INT_MIN; lia).
  unfold staff_inv. destruct pc; simpl in Hs; try discriminate.
  - destruct (isRunning s); inversion Hs; subst; auto.
  - inversion Hs; subst; simpl; auto.
  - destruct (queueMutex s); inversion Hs; subst; simpl; auto.
  - unfold do_try_acquire, try_acquire in Hs. simpl in Hs.
    destruct (Z.gtb_spec (count (doctorsAvailable s)) 0);
      inversion Hs; subst; simpl; repeat split; auto; try (rewrite <- Hd; lia).
    rewrite int_decr_pos; rewrite Hd in *; lia.
  - inversion Hs; subst; simpl; auto.
  - inversion Hs; subst; simpl. repeat split; auto.
    destruct Hd as [Hpos Hd]. unfold release. rewrite Hd.
    rewrite int_incr_below by lia.
    destruct (doctorsAvailable s0); simpl. f_equal. lia.
  - inversion Hs; subst; simpl; auto.
Qed.

Lemma staff_steps_inv s0 k : forall pc s pc' s',
  0 <= count (doctorsAvailable s0) <= INT_MAX ->
  staff_inv s0 pc s ->
  staff_steps k pc s = Some (pc', s') ->
  staff_inv s0 pc' s'.
Proof.
  induction k as [| k IH]; intros pc s pc' s' Hc Hinv Hs; simpl in Hs.
  - now inversion Hs; subst.
  - destruct (staffBehavior pc s) as [[pc1 s1] |] eqn:E; [| discriminate].
    eapply IH; [exact Hc | | exact Hs].
    eapply staff_step_inv; eassumption.
Qed.

Lemma staff_cycle s :
  isRunning s = true -> queueMutex s = false ->
  0 <= count (doctorsAvailable s) <= INT_MAX ->
  staff_steps (if count (doctorsAvailable s) >? 0 then 7 else 5) StaffLoopHead s
  = Some (StaffLoopHead,
          mkShared (patientQueue s) false (doctorsAvailable s) (nursesAvailable s)
            (examRoomsAvailable s) (ventilatorsAvailable s) true
            (history s
             ++ map (pair StaffBehaviorThread)
                  (if count (doctorsAvailable s) >? 0
                   then [Slept 20; TryAcquired Doctors true; Slept 5;
                         Released Doctors;
                         Printed "A doctor has returned from a break, increasing availability."]
                   else [Slept 20; TryAcquired Doctors false]))).
Proof.
  destruct s as [q m [cd] sn sr sv rn h]. cbn [count doctorsAvailable
    nursesAvailable examRoomsAvailable ventilatorsAvailable patientQueue
    queueMutex isRunning history].
  intros -> -> Hc.
  assert (HMIN : INT_MIN <= 0) by (unfold INT_MIN; lia).
  destruct (Z.gtb_spec cd 0) as [Hpos | Hle];
    unfold staff_steps, staffBehavior, do_try_acquire, try_acquire, do_release,
      release;
    sym_step;
    [destruct (Z.gtb_spec cd 0); [| lia] | destruct (Z.gtb_spec cd 0); [lia |]];
    sym_step; rewrite ?int_decr_pos by lia; rewrite ?int_incr_below by lia;
    unfold record; cbn [history patientQueue queueMutex doctorsAvailable
      nursesAvailable examRoomsAvailable ventilatorsAvailable isRunning map];
    rewrite <- ?app_assoc; cbn [app];
    replace (cd - 1 + 1) with cd by lia; reflexivity.
Qed.

(** The first four and five steps of a pass that finds a doctor: the unit
    is out of the pool when the break starts and when it ends. *)
Lemma staff_break s :
  isRunning s = true -> queueMutex s = false ->
  0 < count (doctorsAvailable s) <= INT_MAX ->
  staff_steps 4 StaffLoopHead s
  = Some (StaffBreak,
          mkShared (patientQueue s) true
            (mkSemaphore (count (doctorsAvailable s) - 1)) (nursesAvailable s)
            (examRoomsAvailable s) (ventilatorsAvailable s) true
            (history s
             ++ map (pair StaffBehaviorThread)
                  [Slept 20; TryAcquired Doctors true]))
  /\ staff_steps 5 StaffLoopHead s
     = Some (StaffRelease,
             mkShared (patientQueue s) true
               (mkSemaphore (count (doctorsAvailable s) - 1)) (nursesAvailable s)
               (examRoomsAvailable s) (ventilatorsAvailable s) true
               (history s
                ++ map (pair StaffBehaviorThread)
                     [Slept 20; TryAcquired Doctors true; Slept 5])).
Proof.
  destruct s as [q m [cd] sn sr sv rn h]. cbn [count doctorsAvailable
    nursesAvailable examRoomsAvailable ventilatorsAvailable patientQueue
    queueMutex isRunning history].
  intros -> -> Hc.
  split;
    unfold staff_steps, staffBehavior, do_try_acquire, try_acquire;
    sym_step; (destruct (Z.gtb_spec cd 0); [| lia]);
    sym_step; rewrite ?int_decr_pos by lia;
    unfold record; cbn [history patientQueue queueMutex doctorsAvailable
      nursesAvailable examRoomsAvailable ventilatorsAvailable isRunning map];
    rewrite <- ?app_assoc; cbn [app]; reflexivity.
Qed.

(** C8.  One pass of [staffBehavior], nothing else running: if a doctor is
    available the pass takes it with [try_acquire], so that the count is
    one below its starting value when the five-second break begins and
    when it ends, then releases it, and ends with every pool as it found
    it; if none is available the pass ends after the failed attempt with
    every pool untouched.  At every step the doctor count is its starting
    value, or one less exactly while the thread is between its
    [try_acquire] and its [release]; it is never negative, and the other
    pools never change. *)
Theorem fatigue_cycle_returns_the_unit (w : World) :
  staffBehaviorThread w = StaffLoopHead ->
  isRunning (shared w) = true ->
  queueMutex (shared w) = false ->
  0 <= available (doctorsAvailable (shared w)) <= INT_MAX ->
  (exists w',
      run (repeat RunStaffBehavior
             (if available (doctorsAvailable (shared w)) >? 0 then 7 else 5)) w
      = Some w'
      /\ staffBehaviorThread w' = StaffLoopHead
      /\ doctorsAvailable (shared w') = doctorsAvailable (shared w)
      /\ nursesAvailable (shared w') = nursesAvailable (shared w)
      /\ examRoomsAvailable (shared w') = examRoomsAvailable (shared w)
      /\ ventilatorsAvailable (shared w') = ventilatorsAvailable (shared w)
      /\ patientQueue (shared w') = patientQueue (shared w)
      /\ queueMutex (shared w') = false
      /\ history (shared w')
         = history (shared w)
           ++ map (pair StaffBehaviorThread)
                (if available (doctorsAvailable (shared w)) >? 0
                 then [Slept 20; TryAcquired Doctors true; Slept 5;
                       Released Doctors;
                       Printed "A doctor has returned from a break, increasing availability."]
                 else [Slept 20; TryAcquired Doctors false]))
  /\ (forall k wk,
        run (repeat RunStaffBehavior k) w = Some wk ->
        0 <= available (doctorsAvailable (shared wk))
          <= available (doctorsAvailable (shared w))
        /\ (available (doctorsAvailable (shared w)) = 0 ->
            doctorsAvailable (shared wk) = doctorsAvailable (shared w))
        /\ nursesAvailable (shared wk) = nursesAvailable (shared w)
        /\ examRoomsAvailable (shared wk) = examRoomsAvailable (shared w)
        /\ ventilatorsAvailable (shared wk) = ventilatorsAvailable (shared w))
  /\ (0 < available (doctorsAvailable (shared w)) ->
      exists w4 w5,
        run (repeat RunStaffBehavior 4) w = Some w4
        /\ staffBehaviorThread w4 = StaffBreak
        /\ available (doctorsAvailable (shared w4))
           = available (doctorsAvailable (shared w)) - 1
        /\ history (shared w4)
           = history (shared w)
             ++ map (pair StaffBehaviorThread)
                  [Slept 20; TryAcquired Doctors true]
        /\ run (repeat RunStaffBehavior 5) w = Some w5
        /\ staffBehaviorThread w5 = StaffRelease
        /\ available (doctorsAvailable (shared w5))
           = available (doctorsAvailable (shared w)) - 1
        /\ history (shared w5)
           = history (shared w)
             ++ map (pair StaffBehaviorThread)
                  [Slept 20; TryAcquired Doctors true; Slept 5])
  /\ (forall k wk,
        run (repeat RunStaffBehavior k) w = Some wk ->
        match staffBehaviorThread wk with
        | StaffBreak | StaffRelease =>
            available (doctorsAvailable (shared wk))
            = available (doctorsAvailable (shared w)) - 1
        | _ => doctorsAvailable (shared wk) = doctorsAvailable (shared w)
        end).
Proof.
  intros Hpc Hrun Hm Hc. unfold available in *.
  assert (Hinv : forall k wk,
             run (repeat RunStaffBehavior k) w = Some wk ->
             staff_inv (shared w) (staffBehaviorThread wk) (shared wk)).
  { intros k wk Hk. rewrite run_staff_steps, Hpc in Hk.
    destruct (staff_steps k StaffLoopHead (shared w)) as [[pc' s'] |] eqn:E;
      [| discriminate].
    inversion Hk; subst; clear Hk. cbn [shared staffBehaviorThread].
    eapply staff_steps_inv; [exact Hc | | exact E].
    unfold staff_inv. repeat split; reflexivity. }
  split; [| split; [| split]].
  - rewrite run_staff_steps, Hpc, (staff_cycle _ Hrun Hm Hc).
    eexists. split; [reflexivity |]. simpl. repeat split.
  - intros k wk Hk. destruct (Hinv k wk Hk) as (Hn & Hr & Hv & _ & Hd).
    repeat split; try assumption; destruct (staffBehaviorThread wk);
      try (rewrite Hd; lia); try (rewrite Hd; reflexivity); try lia.
  - intros Hpos.
    destruct (staff_break (shared w) Hrun Hm (conj Hpos (proj2 Hc)))
      as [H4 H5].
    rewrite !run_staff_steps, Hpc, H4, H5.
    eexists. eexists. cbn [shared staffBehaviorThread doctorsAvailable
      count history].
    repeat match goal with |- _ /\ _ => split end; reflexivity.
  - intros k wk Hk. destruct (Hinv k wk Hk) as (_ & _ & _ & _ & Hd).
    destruct (staffBehaviorThread wk); try exact Hd; apply Hd.
Qed.

Lemma fatigue_cycle_returns_the_unit_witness :
  exists w5 w',
    run (repeat RunStaffBehavior 5) initial_world = Some w5
    /\ staffBehaviorThread w5 = StaffRelease
    /\ available (doctorsAvailable (shared w5)) = 2
    /\ run (repeat RunStaffBehavior 7) initial_world = Some w'
    /\ doctorsAvailable (shared w') = mkSemaphore 3
    /\ In (StaffBehaviorThread, TryAcquired Doctors true) (history (shared w')).
Proof.
  destruct (fatigue_cycle_returns_the_unit initial_world)
    as [(w' & Hr & _ & HD & H) (_ & Hmid & _)];
    try reflexivity.
  - vm_compute. split; discriminate.
  - destruct Hmid as (w4 & w5 & _ & _ & _ & _ & H5 & Hpc5 & Hc5 & _);
      [reflexivity |].
    exists w5, w'. split; [exact H5 |]. split; [exact Hpc5 |].
    split; [rewrite Hc5; reflexivity |].
    split; [exact Hr |]. split; [exact HD |].
    destruct H as (_ & _ & _ & _ & _ & Hh). rewrite Hh. vm_compute. tauto.
Defined.

(* ================================================================== *)
(** * Further properties of the code *)

(** ** The comparator as an ordering *)

Lemma ComparePatient_lex a b :
  ComparePatient a b = true <->
  priority_value (priority b) < priority_value (priority a)
  \/ (priority_value (priority a) = priority_value (priority b) /\ id b < id a).
Proof.
  unfold ComparePatient.
  destruct (Z.eqb_spec (priority_value (priority a)) (priority_value (priority b)));
    rewrite Z.gtb_ltb, Z.ltb_lt; lia.
Qed.

(** [ComparePatient] is a strict weak ordering, as [std::priority_queue]
    requires of its comparator: irreflexive, asymmetric, transitive, and two
    patients it cannot order either way have the same priority and id. *)
Theorem ComparePatient_strict_weak_order :
  (forall a, ComparePatient a a = false)
  /\ (forall a b, ComparePatient a b = true -> ComparePatient b a = false)
  /\ (forall a b c, ComparePatient a b = true -> ComparePatient b c = true ->
                    ComparePatient a c = true)
  /\ (forall a b, ComparePatient a b = false -> ComparePatient b a = false ->
                  priority a = priority b /\ id a = id b).
Proof.
  repeat match goal with |- _ /\ _ => split end.
  - intros a. destruct (ComparePatient a a) eqn:E; [| reflexivity].
    apply ComparePatient_lex in E. lia.
  - intros a b H. destruct (ComparePatient b a) eqn:E; [| reflexivity].
    apply ComparePatient_lex in H, E. lia.
  - intros a b c H1 H2. apply ComparePatient_lex in H1, H2.
    apply ComparePatient_lex. lia.
  - intros a b H1 H2. apply ComparePatient_false in H1, H2.
    pose proof (served_no_later_antisym _ _ H1 H2) as K.
    unfold queue_key in K. injection K as K1 K2.
    split; [now apply priority_value_inj | exact K2].
Qed.

Lemma ComparePatient_strict_weak_order_witness :
  ComparePatient (mkPatient 7 "a" LOW) (mkPatient 9 "b" HIGH) = true
  /\ ComparePatient (mkPatient 9 "b" HIGH) (mkPatient 7 "a" LOW) = false.
Proof.
  split; [reflexivity |].
  apply (proj1 (proj2 ComparePatient_strict_weak_order)). reflexivity.
Defined.

(** ** Release against acquire *)

(** A [release] makes the next [acquire] and the next [try_acquire] succeed
    and give back the semaphore as it was; [acquire] would block exactly
    when [try_acquire] reports failure, and when neither does they leave the
    same count. *)
Theorem release_then_acquire (s : Semaphore) :
  0 <= count s < INT_MAX ->
  acquire (release s) = Some s
  /\ try_acquire (release s) = (true, s)
  /\ (acquire s = None <-> fst (try_acquire s) = false)
  /\ (forall s', acquire s = Some s' <-> try_acquire s = (true, s')).
Proof.
  intros Hc. assert (HMIN : INT_MIN <= 0) by (unfold INT_MIN; lia).
  destruct s as [c]. simpl in Hc.
  unfold acquire, try_acquire, release; simpl.
  rewrite int_incr_below by lia.
  destruct (Z.gtb_spec (c + 1) 0); [| lia].
  rewrite int_decr_pos by lia. replace (c + 1 - 1) with c by lia.
  split; [reflexivity |]. split; [reflexivity |].
  destruct (Z.gtb_spec c 0); simpl.
  - split; [split; discriminate |].
    intros s'. split; intros K; inversion K; reflexivity.
  - split; [split; reflexivity |].
    intros s'. split; discriminate.
Qed.

Lemma release_then_acquire_witness :
  acquire (release (mkSemaphore 0)) = Some (mkSemaphore 0)
  /\ try_acquire (release (mkSemaphore 0)) = (true, mkSemaphore 0).
Proof.
  destruct (release_then_acquire (mkSemaphore 0)) as (H1 & H2 & _).
  - vm_compute. split; [discriminate | reflexivity].
  - split; assumption.
Defined.

(** ** Adding capacity *)

Lemma release_times_nat t r k : forall s,
  INT_MIN <= count (pool r s) ->
  count (pool r s) + Z.of_nat k <= INT_MAX ->
  nat_rect (fun _ => Shared) s (fun _ => do_release t r) k
  = record t (repeat (Released r) k)
      (with_pool r (mkSemaphore (count (pool r s) + Z.of_nat k)) s).
Proof.
  induction k as [| k IH]; intros s Hlo Hhi.
  - cbn [nat_rect repeat Z.of_nat]. rewrite Z.add_0_r.
    destruct s as [q m [cd] [cn] [cr] [cv] rn h]; destruct r;
      unfold record; simpl; now rewrite app_nil_r.
  - cbn [nat_rect]. rewrite IH by lia.
    change (repeat (Released r) (S k))
      with (Released r :: repeat (Released r) k).
    rewrite repeat_cons.
    assert (E : int_incr (count (pool r s) + Z.of_nat k)
                = count (pool r s) + Z.of_nat (S k))
      by (rewrite int_incr_below; lia).
    destruct s as [q m [cd] [cn] [cr] [cv] rn h]; destruct r;
      unfold do_release, record, release; cbn [pool with_pool count history
        patientQueue queueMutex doctorsAvailable nursesAvailable
        examRoomsAvailable ventilatorsAvailable isRunning] in *;
      rewrite E, map_app, app_assoc; reflexivity.
Qed.

(** The loop [for (i = 0; i < n; ++i) sem.release()] raises the count of
    its semaphore by [n] when [n] is positive and does nothing otherwise;
    the queue, the mutex, the flag and the other semaphores are untouched. *)
Theorem release_times_effect (t : Thread) (r : Resource) (n : Z) (s : Shared) :
  INT_MIN <= count (pool r s) ->
  count (pool r s) + Z.max 0 n <= INT_MAX ->
  release_times t r n s
  = record t (repeat (Released r) (Z.to_nat n))
      (with_pool r (mkSemaphore (count (pool r s) + Z.max 0 n)) s).
Proof.
  intros Hlo Hhi. unfold release_times.
  destruct (Z.le_gt_cases 0 n) as [Hn | Hn].
  - rewrite iter_nat_of_Z by exact Hn.
    rewrite Zabs2Nat.abs_nat_nonneg by exact Hn.
    rewrite Z.max_r in * by exact Hn.
    rewrite release_times_nat; rewrite ?Z2Nat.id by exact Hn; try assumption.
    reflexivity.
  - destruct n as [| p | p]; try lia. cbn [Z.iter Z.to_nat repeat].
    rewrite Z.max_l by lia. rewrite Z.add_0_r.
    destruct s as [q m [cd] [cn] [cr] [cv] rn h]; destruct r;
      unfold record; simpl; now rewrite app_nil_r.
Qed.

Lemma release_times_effect_witness :
  pool Nurses (release_times ResourceThread Nurses 1 initial_shared) = mkSemaphore 3
  /\ pool Nurses (release_times ResourceThread Nurses (-2) initial_shared)
     = mkSemaphore 2.
Proof.
  split.
  - rewrite (release_times_effect ResourceThread Nurses 1 initial_shared);
      [reflexivity | vm_compute; discriminate | vm_compute; discriminate].
  - rewrite (release_times_effect ResourceThread Nurses (-2) initial_shared);
      [reflexivity | vm_compute; discriminate | vm_compute; discriminate].
Defined.

(** ** [addPatient] *)

(** [addPatient] cannot start while [queueMutex] is taken.  Otherwise it
    adds exactly the new patient to the queue, shows the "Arrived" row with
    the current semaphore counts, and leaves the semaphores, the mutex and
    the flag as they were; the patient then at the top of the queue is the
    new one or one that was already queued, and is served no later than the
    new one. *)
Theorem addPatient_effect (t : Thread) (ident : Z) (label : string)
    (prio : Priority) (s : Shared) :
  (queueMutex s = true -> addPatient t ident label prio s = None)
  /\ (queueMutex s = false ->
      exists s' top,
        addPatient t ident label prio s = Some s'
        /\ Permutation (patientQueue s') (mkPatient ident label prio :: patientQueue s)
        /\ pq_top (patientQueue s') = Some top
        /\ served_no_later top (mkPatient ident label prio)
        /\ (top = mkPatient ident label prio \/ In top (patientQueue s))
        /\ (forall r, pool r s' = pool r s)
        /\ queueMutex s' = false
        /\ isRunning s' = isRunning s
        /\ history s'
           = history s
             ++ [(t, Pushed (mkPatient ident label prio));
                 (t, Displayed "Patient" ident label (priorityToString prio)
                       "Arrived"
                       (available (doctorsAvailable s))
                       (available (nursesAvailable s))
                       (available (examRoomsAvailable s))
                       (available (ventilatorsAvailable s)))]).
Proof.
  unfold addPatient. split; intros Hm; rewrite Hm; [reflexivity |].
  set (x := mkPatient ident label prio).
  assert (Hp : Permutation (pq_push x (patientQueue s)) (x :: patientQueue s)).
  { unfold pq_push. symmetry. apply Permutation_cons_append. }
  destruct (pq_extract (pq_push x (patientQueue s))) as [[m rest] |] eqn:E.
  - destruct (pq_top_pop _ _ _ E) as [Htop _].
    pose proof (pq_extract_perm _ _ _ E) as Hp'.
    pose proof (pq_extract_first _ _ _ E) as Hf.
    assert (Hin : In x (m :: rest)).
    { apply (Permutation_in _ Hp'), (Permutation_in _ (Permutation_sym Hp)).
      now left. }
    assert (Hm' : In m (x :: patientQueue s)).
    { apply (Permutation_in _ Hp), (Permutation_in _ (Permutation_sym Hp')).
      now left. }
    eexists. exists m. split; [reflexivity |].
    unfold displayState, record; simpl.
    split; [exact Hp |]. split; [exact Htop |]. split.
    { destruct Hin as [<- | Hin]; [apply served_no_later_refl |].
      rewrite Forall_forall in Hf. now apply Hf. }
    split.
    { destruct Hm' as [<- | Hm']; [now left | now right]. }
    split; [intros r; now destruct r |].
    split; [exact Hm |]. split; [reflexivity |].
    now rewrite <- app_assoc.
  - apply pq_extract_none in E. unfold pq_push in E.
    now destruct (patientQueue s).
Qed.

Lemma addPatient_effect_witness :
  exists s' top,
    addPatient PatientThread 1 "Patient_1" LOW initial_shared = Some s'
    /\ pq_top (patientQueue s') = Some top
    /\ served_no_later top (mkPatient 1 "Patient_1" LOW).
Proof.
  destruct (proj2 (addPatient_effect PatientThread 1 "Patient_1" LOW initial_shared))
    as (s' & top & H1 & _ & H2 & H3 & _); [reflexivity |].
  exists s', top. repeat split; assumption.
Defined.

(** ** The flag, the mutex and the end of the process *)

Ltac break_ifs H :=
  repeat (match type of H with
          | context [if ?c then _ else _] => destruct c eqn:?
          | context [match ?c with Some _ => _ | None => _ end] =>
              destruct c eqn:?
          end; cbv beta iota in H).

Lemma treatPatient_frame i d s d' s' :
  treatPatient i d s = Some (d', s') ->
  queueMutex s' = queueMutex s /\ isRunning s' = isRunning s.
Proof.
  intros Hs. destruct d as [pc cur va].
  unfold treatPatient, do_acquire, acquire, do_try_acquire, try_acquire in Hs.
  cbn [doctor_pc currentPatient ventilatorAllocated] in Hs.
  destruct pc; break_ifs Hs; try discriminate; inversion Hs; subst;
    split; cbn; try reflexivity; congruence.
Qed.

Lemma do_release_frame t r s :
  queueMutex (do_release t r s) = queueMutex s
  /\ isRunning (do_release t r s) = isRunning s
  /\ patientQueue (do_release t r s) = patientQueue s.
Proof. destruct r; repeat split. Qed.

Lemma release_times_frame t r n s :
  queueMutex (release_times t r n s) = queueMutex s
  /\ isRunning (release_times t r n s) = isRunning s
  /\ patientQueue (release_times t r n s) = patientQueue s.
Proof.
  unfold release_times.
  apply (Z_iter_invariant
           (fun x => queueMutex x = queueMutex s /\ isRunning x = isRunning s
                     /\ patientQueue x = patientQueue s)).
  - intros x (H1 & H2 & H3).
    destruct (do_release_frame t r x) as (K1 & K2 & K3).
    repeat split; congruence.
  - repeat split.
Qed.

Lemma returned_doctor_cannot_step ds : forall i d s,
  forallb doctor_returned ds = true ->
  nth_error ds i = Some d -> treatPatient i d s = None.
Proof.
  intros i d s Hall Hi.
  rewrite forallb_forall in Hall.
  specialize (Hall d (nth_error_In _ _ Hi)).
  unfold doctor_returned in Hall. unfold treatPatient.
  destruct (doctor_pc d); try discriminate. reflexivity.
Qed.

Lemma no_step_after_join a w :
  all_joined w = true -> a <> RunMain -> step a w = None.
Proof.
  unfold all_joined. intros H Ha.
  apply andb_prop in H as [H Hst]. apply andb_prop in H as [H Hrg].
  apply andb_prop in H as [Hds Har].
  destruct a as [i | rnd b | r1 r2 r3 | |]; simpl.
  - destruct (nth_error (doctorThreads w) i) as [d |] eqn:Ei; [| reflexivity].
    now rewrite (returned_doctor_cannot_step _ _ _ _ Hds Ei).
  - unfold patientArrival.
    destruct (arrival_pc (patientThread w)); try discriminate. reflexivity.
  - unfold dynamicResourceGeneration.
    destruct (resource_pc (resourceThread w)); try discriminate. reflexivity.
  - unfold staffBehavior.
    destruct (staffBehaviorThread w); try discriminate. reflexivity.
  - now elim Ha.
Qed.

Lemma control_inv_initial : control_inv initial_world.
Proof. unfold control_inv; simpl. repeat split; try lia; discriminate. Qed.

Ltac control_finish :=
  cbn [shared doctorThreads patientThread resourceThread staffBehaviorThread
         mainThread isRunning queueMutex displayState record with_queue
         with_mutex with_running with_pool do_release resource_pc newDoctors
         newNurses newExamRooms in_resource_cs in_staff_cs] in *;
  repeat match goal with
    | H : _ || _ = false |- _ => apply orb_false_elim in H as [? ?]
    end;
  repeat match goal with
    | H : (_ <? 0) = false |- _ => apply Z.ltb_ge in H
    end;
  repeat match goal with |- _ /\ _ => split end;
  try assumption; try lia; try (intros; discriminate);
  try (match goal with
       | |- context [Z.rem ?r 2] =>
           pose proof (Z.rem_bound_pos r 2 ltac:(assumption) ltac:(lia))
       end; lia);
  try (repeat match goal with
         | H : context [in_resource_cs ?x] |- _ =>
             let b := fresh "b" in
             remember (in_resource_cs x) as b eqn:Eb in *; clear Eb; destruct b
         | H : context [in_staff_cs ?x] |- _ =>
             let b := fresh "b" in
             remember (in_staff_cs x) as b eqn:Eb in *; clear Eb; destruct b
         | |- context [in_resource_cs ?x] =>
             let b := fresh "b" in
             remember (in_resource_cs x) as b eqn:Eb in *; clear Eb; destruct b
         | |- context [in_staff_cs ?x] =>
             let b := fresh "b" in
             remember (in_staff_cs x) as b eqn:Eb in *; clear Eb; destruct b
         end; cbn [orb andb] in *; congruence).

Lemma control_inv_step a w w' :
  control_inv w -> step a w = Some w' -> control_inv w'.
Proof.
  intros (Hrun & Hmx & Hex & Hnd & Hnn & Hnr & Hret) Hs.
  assert (Hmn : mainThread w <> MainReturned).
  { intros E. destruct a;
      try (rewrite no_step_after_join in Hs;
           [discriminate | now apply Hret | discriminate]).
    simpl in Hs. unfold main in Hs. rewrite E in Hs. discriminate. }
  clear Hret.
  destruct w as [s ds ar rg st mn]; cbn [shared doctorThreads patientThread
    resourceThread staffBehaviorThread mainThread] in *.
  unfold control_inv.
  destruct a as [i | rnd b | r1 r2 r3 | |]; cbn [step shared doctorThreads
    patientThread resourceThread staffBehaviorThread mainThread] in Hs.
  - destruct (nth_error ds i) as [d |] eqn:Ei; [| discriminate].
    destruct (treatPatient i d s) as [[d' s'] |] eqn:Et; [| discriminate].
    destruct (treatPatient_frame _ _ _ _ _ Et) as [F1 F2].
    inversion Hs; subst; clear Hs. cbn [shared doctorThreads patientThread
      resourceThread staffBehaviorThread mainThread].
    rewrite F1, F2. repeat match goal with |- _ /\ _ => split end;
      try assumption; try lia. intros E. contradiction.
  - unfold patientArrival, addPatient in Hs. destruct ar as [pc pid].
    cbn [arrival_pc patientId] in Hs.
    destruct pc; break_ifs Hs; try discriminate; inversion Hs; subst; clear Hs;
      control_finish.
  - unfold dynamicResourceGeneration in Hs. destruct rg as [pc nd nn nr].
    cbn [resource_pc newDoctors newNurses newExamRooms] in *.
    destruct pc; break_ifs Hs; try discriminate; inversion Hs; subst; clear Hs;
      cbn [shared doctorThreads patientThread resourceThread
             staffBehaviorThread mainThread];
      repeat match goal with
        | |- context [release_times ?t ?r ?n ?x] =>
            destruct (release_times_frame t r n x) as (-> & -> & _)
        end;
      control_finish.
  - unfold staffBehavior, do_try_acquire, try_acquire in Hs.
    destruct st; break_ifs Hs; try discriminate; inversion Hs; subst; clear Hs;
      control_finish.
  - unfold main in Hs.
    destruct mn; break_ifs Hs; try discriminate; inversion Hs; subst; clear Hs;
      control_finish.
    intros _. unfold all_joined in *. exact Heqb.
Qed.

Lemma reachable_control_inv w : reachable w -> control_inv w.
Proof.
  apply reachable_ind.
  - exact control_inv_initial.
  - intros a w0 w1 _ H0 Hs. now apply control_inv_step with a w0.
Qed.

(** [isRunning] is true exactly until [main] clears it and never becomes
    true again; once [main] has got past its [join]s every other thread has
    returned and no thread can take another step. *)
Theorem flag_and_join (w : World) :
  reachable w ->
  (isRunning (shared w) = true <-> mainThread w = MainSleeping)
  /\ (mainThread w = MainReturned ->
      all_joined w = true /\ forall a, step a w = None).
Proof.
  intros Hr. destruct (reachable_control_inv w Hr) as (Hrun & _ & _ & _ & _ & _ & Hret).
  split.
  - rewrite Hrun. destruct (mainThread w); split; intros H;
      reflexivity || discriminate.
  - intros Hm. split; [now apply Hret |].
    intros a. destruct a;
      try (apply no_step_after_join; [now apply Hret | discriminate]).
    simpl. unfold main. now rewrite Hm.
Qed.

Lemma flag_and_join_witness :
  exists w,
    run complete_schedule initial_world = Some w
    /\ mainThread w = MainReturned
    /\ isRunning (shared w) = false
    /\ all_joined w = true
    /\ step (RunDoctor 0) w = None.
Proof.
  eexists. split; [vm_compute; reflexivity |].
  split; [reflexivity |]. split; [reflexivity |].
  match goal with
  | |- all_joined ?w = true /\ _ =>
      assert (Hr : reachable w)
        by (exists complete_schedule; vm_compute; reflexivity);
      destruct (proj2 (flag_and_join w Hr) eq_refl) as [H1 H2]
  end.
  split; [exact H1 | apply H2].
Defined.

(** [queueMutex] is taken exactly while [dynamicResourceGeneration] or
    [staffBehavior] is inside its locked block, never both at once; and
    while [staffBehavior] is inside it, which includes the five-second
    break, no doctor thread can dequeue and no patient can be added. *)
Theorem queue_mutex_exclusion (w : World) :
  reachable w ->
  queueMutex (shared w)
  = in_resource_cs (resource_pc (resourceThread w))
    || in_staff_cs (staffBehaviorThread w)
  /\ in_resource_cs (resource_pc (resourceThread w))
     && in_staff_cs (staffBehaviorThread w) = false
  /\ (in_staff_cs (staffBehaviorThread w) = true ->
      (forall i d, nth_error (doctorThreads w) i = Some d ->
                   doctor_pc d = AtWait -> step (RunDoctor i) w = None)
      /\ (arrival_pc (patientThread w) = ArrAdd ->
          forall rnd b, step (RunPatientArrival rnd b) w = None)).
Proof.
  intros Hr. destruct (reachable_control_inv w Hr) as (_ & Hmx & Hex & _).
  split; [exact Hmx |]. split; [exact Hex |].
  intros Hst. rewrite Hst, orb_true_r in Hmx. split.
  - intros i d Hi Hpc. simpl. rewrite Hi. unfold treatPatient.
    now rewrite Hpc, Hmx.
  - intros Hpc rnd b. simpl. unfold patientArrival, addPatient.
    rewrite Hpc, Hmx. now destruct (rnd <? 0).
Qed.

Lemma queue_mutex_exclusion_witness :
  exists w,
    run (repeat RunStaffBehavior 5 ++ [RunDoctor 0]) initial_world = Some w
    /\ staffBehaviorThread w = StaffRelease
    /\ queueMutex (shared w) = true
    /\ step (RunDoctor 0) w = None
    /\ step (RunStaffBehavior) w <> None.
Proof.
  eexists. split; [vm_compute; reflexivity |].
  split; [reflexivity |].
  match goal with
  | |- queueMutex (shared ?w) = true /\ _ =>
      assert (Hr : reachable w)
        by (exists (repeat RunStaffBehavior 5 ++ [RunDoctor 0]);
            vm_compute; reflexivity);
      destruct (queue_mutex_exclusion w Hr) as (Hmx & _ & Hblock)
  end.
  split; [exact Hmx |]. split.
  - destruct (Hblock eq_refl) as [Hd _].
    apply (Hd 0%nat (mkDoctor AtWait None false)); reflexivity.
  - vm_compute. discriminate.
Defined.

(** A thread that owns [queueMutex] is never blocked: from any point of the
    locked block of [staffBehavior] or [dynamicResourceGeneration] the
    owner reaches the end of the block in at most four of its own steps,
    whatever the state of the semaphores, and the mutex is then free. *)
Theorem locked_blocks_complete (w : World) :
  (in_staff_cs (staffBehaviorThread w) = true ->
   exists n w',
     (n <= 4)%nat
     /\ run (repeat RunStaffBehavior n) w = Some w'
     /\ staffBehaviorThread w' = StaffLoopHead
     /\ queueMutex (shared w') = false)
  /\ (in_resource_cs (resource_pc (resourceThread w)) = true ->
      forall r1 r2 r3,
      exists n w',
        (n <= 4)%nat
        /\ run (repeat (RunResourceGeneration r1 r2 r3) n) w = Some w'
        /\ resource_pc (resourceThread w') = ResLoopHead
        /\ queueMutex (shared w') = false).
Proof.
  destruct w as [s ds ar rg st mn]. split.
  - cbn [staffBehaviorThread]. intros Hcs.
    destruct st; try discriminate.
    + destruct (count (doctorsAvailable s) >? 0) eqn:E.
      * exists 4%nat. eexists. split; [lia |].
        cbn [repeat run step staffBehavior staffBehaviorThread shared].
        unfold do_try_acquire, try_acquire. cbn [pool]. rewrite E.
        cbn [run step staffBehavior staffBehaviorThread shared].
        split; [reflexivity |]. split; reflexivity.
      * exists 2%nat. eexists. split; [lia |].
        cbn [repeat run step staffBehavior staffBehaviorThread shared].
        unfold do_try_acquire, try_acquire. cbn [pool]. rewrite E.
        cbn [run step staffBehavior staffBehaviorThread shared].
        split; [reflexivity |]. split; reflexivity.
    + exists 3%nat. eexists. split; [lia |].
      split; [reflexivity |]. split; reflexivity.
    + exists 2%nat. eexists. split; [lia |].
      split; [reflexivity |]. split; reflexivity.
    + exists 1%nat. eexists. split; [lia |].
      split; [reflexivity |]. split; reflexivity.
  - cbn [resourceThread]. intros Hcs r1 r2 r3.
    destruct rg as [pc nd nn nr]. cbn [resource_pc] in Hcs.
    destruct pc; try discriminate.
    + exists 4%nat. eexists. split; [lia |].
      split; [reflexivity |]. split; reflexivity.
    + exists 3%nat. eexists. split; [lia |].
      split; [reflexivity |]. split; reflexivity.
    + exists 2%nat. eexists. split; [lia |].
      split; [reflexivity |]. split; reflexivity.
    + exists 1%nat. eexists. split; [lia |].
      split; [reflexivity |]. split; reflexivity.
Qed.

Lemma locked_blocks_complete_witness :
  exists w n w',
    run (repeat RunStaffBehavior 4) initial_world = Some w
    /\ queueMutex (shared w) = true
    /\ (n <= 4)%nat
    /\ run (repeat RunStaffBehavior n) w = Some w'
    /\ queueMutex (shared w') = false.
Proof.
  eexists.
  match goal with
  | |- exists n w', run ?sch ?w0 = Some ?w /\ _ =>
      let H := fresh in
      assert (H : run sch w0 = Some w) by (vm_compute; reflexivity);
      destruct (proj1 (locked_blocks_complete w) eq_refl)
        as (n & w' & Hn & Hrun & _ & Hm);
      exists n, w'; split; [exact H |]
  end.
  split; [reflexivity |]. split; [exact Hn |]. split; [exact Hrun | exact Hm].
Defined.

(** ** Patients: numbering, conservation, order of service *)

Lemma pushed_patients_app h h' :
  pushed_patients (h ++ h') = pushed_patients h ++ pushed_patients h'.
Proof. unfold pushed_patients. apply flat_map_app. Qed.

Lemma no_queue_events_pushed new :
  Forall no_queue_event new -> pushed_patients new = [].
Proof.
  induction 1 as [| [t e] new H _ IH]; [reflexivity |].
  unfold pushed_patients in *. simpl. rewrite IH.
  unfold no_queue_event in H. simpl in H. destruct e; try reflexivity; contradiction.
Qed.

Lemma no_queue_events_dequeued new :
  Forall no_queue_event new -> dequeued_patients new = [].
Proof.
  induction 1 as [| [t e] new H _ IH]; [reflexivity |].
  unfold dequeued_patients in *. simpl. rewrite IH.
  unfold no_queue_event in H. simpl in H. destruct e; try reflexivity; contradiction.
Qed.

Lemma release_times_history t r n s :
  exists k,
    history (release_times t r n s) = history s ++ repeat (t, Released r) k.
Proof.
  unfold release_times.
  apply (Z_iter_invariant
           (fun x => exists k, history x = history s ++ repeat (t, Released r) k)).
  - intros x [k Hk]. exists (S k).
    change (repeat (t, Released r) (S k))
      with ((t, Released r) :: repeat (t, Released r) k).
    rewrite repeat_cons, app_assoc, <- Hk. now destruct r.
  - exists O. simpl. now rewrite app_nil_r.
Qed.

Lemma released_no_queue_events t r k :
  Forall no_queue_event (repeat (t, Released r) k).
Proof.
  induction k as [| k IH]; simpl; constructor; [exact I | exact IH].
Qed.

Lemma pq_top_pop_spec q p :
  pq_top q = Some p ->
  Permutation q (p :: pq_pop q) /\ Forall (served_no_later p) (pq_pop q).
Proof.
  intros H. destruct (pq_extract q) as [[m r] |] eqn:E.
  - destruct (pq_top_pop _ _ _ E) as [Ht Hp]. rewrite Ht in H.
    inversion H; subst.
    split; [now apply pq_extract_perm | now apply (pq_extract_first q)].
  - unfold pq_top in H. rewrite E in H. discriminate.
Qed.

(** What one step can do to the queue and to the arrival counter. *)
Lemma step_queue_effect a w w' :
  step a w = Some w' ->
  exists new,
    history (shared w') = history (shared w) ++ new
    /\ ((patientQueue (shared w') = patientQueue (shared w)
         /\ patientId (patientThread w') = patientId (patientThread w)
         /\ Forall no_queue_event new)
        \/ (exists t p,
              new = [(t, Dequeued p)]
              /\ pq_top (patientQueue (shared w)) = Some p
              /\ patientQueue (shared w') = pq_pop (patientQueue (shared w))
              /\ patientId (patientThread w') = patientId (patientThread w))
        \/ (exists x e,
              new = [(PatientThread, Pushed x); (PatientThread, e)]
              /\ no_queue_event (PatientThread, e)
              /\ patientQueue (shared w') = pq_push x (patientQueue (shared w))
              /\ id x = patientId (patientThread w)
              /\ patientId (patientThread w')
                 = int_incr (patientId (patientThread w))
              /\ well_named x)).
Proof.
  intros Hs. destruct w as [s ds ar rg st mn].
  destruct a as [i | rnd b | r1 r2 r3 | |]; cbn [step shared doctorThreads
    patientThread resourceThread staffBehaviorThread mainThread] in Hs.
  - destruct (nth_error ds i) as [d |] eqn:Ei; [| discriminate].
    destruct (treatPatient i d s) as [[d' s'] |] eqn:Et; [| discriminate].
    inversion Hs; subst; clear Hs. cbn [shared patientThread].
    destruct d as [pc cur va].
    unfold treatPatient, do_acquire, acquire, do_try_acquire, try_acquire in Et.
    cbn [doctor_pc currentPatient ventilatorAllocated] in Et.
    destruct pc; break_ifs Et; try discriminate; inversion Et; subst; clear Et;
      try solve [exists []; rewrite app_nil_r; split; [reflexivity |]; left;
           repeat split; constructor];
      try solve [eexists; split; [cbn; reflexivity |]; left;
           repeat split; repeat constructor];
      try solve [eexists; split; [cbn; rewrite <- app_assoc; reflexivity |]; left;
           repeat split; repeat constructor].
    eexists; split; [cbn; reflexivity |]. right; left.
    eexists; eexists. repeat split; assumption.
  - unfold patientArrival, addPatient in Hs. destruct ar as [pc pid].
    cbn [arrival_pc patientId] in Hs.
    destruct pc; break_ifs Hs; try discriminate; inversion Hs; subst; clear Hs;
      cbn [shared patientThread patientId];
      try solve [exists []; rewrite app_nil_r; split; [reflexivity |]; left;
           repeat split; constructor];
      try solve [eexists; split; [cbn; reflexivity |]; left;
           repeat split; repeat constructor].
    all: eexists; (split; [cbn; rewrite <- app_assoc; reflexivity |]);
      right; right; eexists; eexists; repeat split; try exact I;
      unfold well_named; cbn [name id];
      ((left; reflexivity) || (right; reflexivity)).
  - unfold dynamicResourceGeneration in Hs. destruct rg as [pc nd nn nr].
    cbn [resource_pc newDoctors newNurses newExamRooms] in *.
    destruct pc; break_ifs Hs; try discriminate; inversion Hs; subst; clear Hs;
      cbn [shared patientThread];
      try solve [exists []; rewrite app_nil_r; split; [reflexivity |]; left;
           repeat split; constructor];
      try solve [eexists; split; [cbn; reflexivity |]; left;
           repeat split; repeat constructor];
      try solve [match goal with
           | |- context [release_times ?t ?r ?n ?x] =>
               destruct (release_times_history t r n x) as [k Hk];
               destruct (release_times_frame t r n x) as (_ & _ & Hq);
               exists (repeat (t, Released r) k); split; [exact Hk |]; left;
               split; [exact Hq |]; split; [reflexivity |];
               apply released_no_queue_events
           end].
  - unfold staffBehavior, do_try_acquire, try_acquire in Hs.
    destruct st; break_ifs Hs; try discriminate; inversion Hs; subst; clear Hs;
      cbn [shared patientThread];
      try solve [exists []; rewrite app_nil_r; split; [reflexivity |]; left;
           repeat split; constructor];
      try solve [eexists; split; [cbn; reflexivity |]; left;
           repeat split; repeat constructor];
      try solve [eexists; split; [cbn; rewrite <- app_assoc; reflexivity |]; left;
           repeat split; repeat constructor].
  - unfold main in Hs.
    destruct mn; break_ifs Hs; try discriminate; inversion Hs; subst; clear Hs;
      cbn [shared patientThread];
      try solve [eexists; split; [cbn; reflexivity |]; left;
           repeat split; repeat constructor].
Qed.

Lemma int_incr_wrap x : int_incr (int_wrap x) = int_wrap (x + 1).
Proof.
  unfold int_incr, int_wrap.
  replace ((x + 2 ^ 31) mod 2 ^ 32 - 2 ^ 31 + 1 + 2 ^ 31)
    with ((x + 2 ^ 31) mod 2 ^ 32 + 1) by lia.
  rewrite Zplus_mod_idemp_l. f_equal. f_equal. lia.
Qed.

Lemma history_all_nil Q : history_all Q [].
Proof. intros h1 e h2 H. now destruct h1. Qed.

Lemma history_all_snoc Q h e :
  history_all Q h -> Q h e -> history_all Q (h ++ [e]).
Proof.
  intros Hh He h1 e1 h2 Heq.
  destruct (app_eq_app _ _ _ _ Heq) as [l [[H1 H2] | [H1 H2]]].
  - destruct l as [| x l]; simpl in H2; inversion H2; subst.
    + rewrite app_nil_r in He. exact He.
    + apply (Hh h1 x l). reflexivity.
  - destruct l as [| x l]; simpl in H2; inversion H2; subst.
    + rewrite app_nil_r. exact He.
    + now destruct l.
Qed.

Lemma history_all_app Q new : forall h,
  history_all Q h -> Forall (fun e => forall h', Q h' e) new ->
  history_all Q (h ++ new).
Proof.
  induction new as [| e new IH]; intros h Hh Hq.
  - now rewrite app_nil_r.
  - inversion Hq as [| x l Hq1 Hq2]; subst.
    change (h ++ e :: new) with (h ++ [e] ++ new).
    rewrite app_assoc. apply IH; [| exact Hq2].
    apply history_all_snoc; [exact Hh | apply Hq1].
Qed.

Lemma no_queue_event_urgent new :
  Forall no_queue_event new ->
  Forall (fun e => forall h', most_urgent_first h' e) new.
Proof.
  apply Forall_impl. intros [t e] H h'. unfold most_urgent_first, no_queue_event in *.
  simpl in *. now destruct e.
Qed.

Lemma queue_inv_initial :
  arrivals_inv initial_world
  /\ history_all most_urgent_first (history (shared initial_world)).
Proof.
  split.
  - unfold arrivals_inv. simpl. repeat split. constructor.
  - apply (history_all_app _ _ []); [apply history_all_nil |].
    repeat constructor.
Qed.

Lemma queue_inv_step a w w' :
  arrivals_inv w /\ history_all most_urgent_first (history (shared w)) ->
  step a w = Some w' ->
  arrivals_inv w' /\ history_all most_urgent_first (history (shared w')).
Proof.
  intros [(Hid & Hids & Hperm) Hall] Hs.
  destruct (step_queue_effect a w w' Hs) as (new & Hnew & Hcase).
  unfold arrivals_inv. rewrite Hnew.
  rewrite pushed_patients_app, dequeued_patients_app.
  destruct Hcase as [(Hq & Hpid & Hno) | [(t & p & -> & Htop & Hq & Hpid)
                                         | (x & e & -> & He & Hq & Hx & Hpid & _)]].
  - rewrite (no_queue_events_pushed _ Hno), (no_queue_events_dequeued _ Hno),
      !app_nil_r, Hq, Hpid.
    split; [repeat split; assumption |].
    apply history_all_app; [exact Hall | now apply no_queue_event_urgent].
  - destruct (pq_top_pop_spec _ _ Htop) as [Hp Hf].
    assert (Hperm' : Permutation (pushed_patients (history (shared w)))
                       (dequeued_patients (history (shared w))
                        ++ p :: pq_pop (patientQueue (shared w)))).
    { rewrite Hperm. apply Permutation_app_head. exact Hp. }
    cbn [pushed_patients dequeued_patients flat_map snd app].
    rewrite app_nil_r, Hq, Hpid, <- app_assoc. cbn [app].
    split; [repeat split; assumption |].
    apply history_all_snoc; [exact Hall |].
    unfold most_urgent_first; cbn [snd].
    exists (pq_pop (patientQueue (shared w))). split; assumption.
  - assert (Hpe : pushed_patients [(PatientThread, Pushed x); (PatientThread, e)]
                  = [x]).
    { unfold pushed_patients, no_queue_event in *. simpl in *.
      destruct e; try reflexivity; contradiction. }
    assert (Hde : dequeued_patients [(PatientThread, Pushed x); (PatientThread, e)]
                  = []).
    { unfold dequeued_patients, no_queue_event in *. simpl in *.
      destruct e; try reflexivity; contradiction. }
    rewrite Hpe, Hde, app_nil_r, Hq, Hpid, length_app. cbn [List.length].
    split.
    + split; [| split].
      * rewrite Hid, int_incr_wrap. f_equal. lia.
      * rewrite Nat.add_1_r, seq_S, !map_app, Hids. cbn [map Nat.add].
        f_equal. now rewrite Hx, Hid.
      * unfold pq_push. rewrite app_assoc. now apply Permutation_app_tail.
    + change [(PatientThread, Pushed x); (PatientThread, e)]
        with ([(PatientThread, Pushed x)] ++ [(PatientThread, e)]).
      rewrite app_assoc.
      apply history_all_snoc; [apply history_all_snoc; [exact Hall | exact I] |].
      unfold most_urgent_first, no_queue_event in *. simpl in *.
      now destruct e.
Qed.

Lemma reachable_queue_inv w :
  reachable w ->
  arrivals_inv w /\ history_all most_urgent_first (history (shared w)).
Proof.
  revert w.
  apply (reachable_ind
           (fun w => arrivals_inv w
                     /\ history_all most_urgent_first (history (shared w)))).
  - exact queue_inv_initial.
  - intros a w0 w1 _ H0 Hs. now apply queue_inv_step with a w0.
Qed.

Lemma NoDup_ids_keys l : NoDup (map id l) -> NoDup (map queue_key l).
Proof.
  induction l as [| x l IH]; simpl; intros H; [constructor |].
  inversion H as [| y m Hnotin Hnd]; subst. constructor; [| now apply IH].
  intros Hin. apply Hnotin.
  apply in_map_iff in Hin as (z & Hz & Hzin).
  unfold queue_key in Hz. injection Hz as _ Hz.
  rewrite <- Hz. now apply in_map.
Qed.

Lemma NoDup_arrival_numbers n : forall a,
  NoDup (map (fun k => 1 + Z.of_nat k) (seq a n)).
Proof.
  induction n as [| n IH]; intros a; cbn [seq map]; constructor; [| apply IH].
  intros Hin. apply in_map_iff in Hin as (k & Hk & Hkin).
  apply in_seq in Hkin. lia.
Qed.

(** Every patient pushed is either dequeued by a doctor thread or still in
    the queue, exactly once: none is lost, none is served twice, none is
    invented. *)
Theorem no_patient_lost_or_duplicated (w : World) :
  reachable w ->
  Permutation (pushed_patients (history (shared w)))
    (dequeued_patients (history (shared w)) ++ patientQueue (shared w)).
Proof.
  intros Hr. destruct (reachable_queue_inv w Hr) as [(_ & _ & H) _]. exact H.
Qed.

Lemma no_patient_lost_or_duplicated_witness :
  exists w,
    run shutdown_schedule initial_world = Some w
    /\ List.length (pushed_patients (history (shared w))) = 4%nat
    /\ Permutation (pushed_patients (history (shared w)))
         (dequeued_patients (history (shared w)) ++ patientQueue (shared w)).
Proof.
  eexists. split; [vm_compute; reflexivity |]. split; [reflexivity |].
  apply no_patient_lost_or_duplicated.
  exists shutdown_schedule. vm_compute. reflexivity.
Defined.

(** As long as fewer than 2^31 patients have arrived, the patients pushed
    carry the ids 1, 2, 3, ... in the order of their arrival, so no two
    patients share an id and no two queued patients compare as equal. *)
Theorem patient_ids_are_arrival_numbers (w : World) :
  reachable w ->
  Z.of_nat (List.length (pushed_patients (history (shared w)))) <= INT_MAX ->
  map id (pushed_patients (history (shared w)))
  = map (fun k => 1 + Z.of_nat k)
      (seq 0 (List.length (pushed_patients (history (shared w)))))
  /\ NoDup (map id (pushed_patients (history (shared w))))
  /\ NoDup (map queue_key (patientQueue (shared w))).
Proof.
  intros Hr Hn. destruct (reachable_queue_inv w Hr) as [(_ & Hids & Hperm) _].
  assert (E : map id (pushed_patients (history (shared w)))
              = map (fun k => 1 + Z.of_nat k)
                  (seq 0 (List.length (pushed_patients (history (shared w)))))).
  { rewrite Hids. apply map_ext_in. intros k Hk. apply in_seq in Hk.
    apply int_wrap_id. unfold int_range, INT_MIN, INT_MAX in *. lia. }
  assert (Hnd : NoDup (map id (pushed_patients (history (shared w))))).
  { rewrite E. apply NoDup_arrival_numbers. }
  split; [exact E |]. split; [exact Hnd |].
  apply NoDup_ids_keys.
  apply (Permutation_map id) in Hperm.
  apply (Permutation_NoDup Hperm) in Hnd.
  rewrite map_app in Hnd. now apply NoDup_app_remove_l in Hnd.
Qed.

Lemma patient_ids_are_arrival_numbers_witness :
  exists w,
    run shutdown_schedule initial_world = Some w
    /\ map id (pushed_patients (history (shared w))) = [1; 2; 3; 4].
Proof.
  eexists. split; [vm_compute; reflexivity |].
  match goal with
  | |- map id (pushed_patients (history (shared ?w))) = _ =>
      destruct (patient_ids_are_arrival_numbers w) as (H & _)
  end.
  - exists shutdown_schedule. vm_compute. reflexivity.
  - vm_compute. discriminate.
  - rewrite H. reflexivity.
Defined.

(** Whenever a doctor thread dequeues a patient, that patient had been
    pushed and not yet dequeued, and every other patient then waiting has a
    less urgent priority, or the same priority and an id that is not
    smaller. *)
Theorem doctors_take_most_urgent (w : World) :
  reachable w ->
  forall h1 t p h2,
    history (shared w) = h1 ++ (t, Dequeued p) :: h2 ->
    exists rest,
      Permutation (pushed_patients h1) (dequeued_patients h1 ++ p :: rest)
      /\ Forall (served_no_later p) rest.
Proof.
  intros Hr h1 t p h2 Hsplit.
  destruct (reachable_queue_inv w Hr) as [_ Hall].
  exact (Hall _ _ _ Hsplit).
Qed.

Lemma doctors_take_most_urgent_witness :
  exists w rest,
    run (arrive 2 ++ arrive 0 ++ [RunDoctor 0; RunDoctor 0]) initial_world = Some w
    /\ history (shared w)
       = removelast (history (shared w))
         ++ [(DoctorThread 0, Dequeued (mkPatient 2 "Patient_2" HIGH))]
    /\ Permutation (pushed_patients (removelast (history (shared w))))
         (dequeued_patients (removelast (history (shared w)))
          ++ mkPatient 2 "Patient_2" HIGH :: rest)
    /\ Forall (served_no_later (mkPatient 2 "Patient_2" HIGH)) rest.
Proof.
  eexists.
  match goal with
  | |- exists rest, run ?sch ?w0 = Some ?w /\ _ =>
      assert (Hrun : run sch w0 = Some w) by (vm_compute; reflexivity);
      assert (Hr : reachable w) by (exists sch; exact Hrun);
      assert (Hsplit : history (shared w)
                       = removelast (history (shared w))
                         ++ [(DoctorThread 0,
                              Dequeued (mkPatient 2 "Patient_2" HIGH))])
        by (vm_compute; reflexivity);
      destruct (doctors_take_most_urgent w Hr _ _ _ _ Hsplit) as (rest & H1 & H2);
      exists rest
  end.
  split; [exact Hrun |]. split; [exact Hsplit |]. split; assumption.
Defined.

(** ** The books of the four pools *)

Lemma added_app r h h' : added r (h ++ h') = added r h + added r h'.
Proof.
  induction h as [| [t e] h IH]; [reflexivity |].
  cbn [app added]. destruct t; try exact IH.
  destruct e; try exact IH. rewrite IH. lia.
Qed.

Lemma added_nonneg r h : 0 <= added r h.
Proof.
  induction h as [| [t e] h IH]; cbn [added]; [lia |].
  destruct t; try exact IH. destruct e; try exact IH.
  destruct (Resource_eqb r0 r); lia.
Qed.

Lemma doctor_holders_nonneg r l : 0 <= doctor_holders r l.
Proof.
  induction l as [| d l IH]; cbn [doctor_holders]; [lia |].
  destruct (doctor_holds r d); cbn [Z.b2z]; lia.
Qed.

Lemma doctor_holders_replace_nth r d' l : forall i d,
  nth_error l i = Some d ->
  doctor_holders r (replace_nth i d' l)
  = doctor_holders r l - Z.b2z (doctor_holds r d) + Z.b2z (doctor_holds r d').
Proof.
  induction l as [| z l IH]; intros [| i] d H; simpl in H; try discriminate.
  - inversion H; subst. cbn [replace_nth doctor_holders]. ring.
  - cbn [replace_nth doctor_holders]. rewrite (IH _ _ H). ring.
Qed.

Lemma doctor_holders_ge r l : forall i d,
  nth_error l i = Some d -> Z.b2z (doctor_holds r d) <= doctor_holders r l.
Proof.
  induction l as [| z l IH]; intros [| i] d H; simpl in H; try discriminate.
  - inversion H; subst. cbn [doctor_holders].
    pose proof (doctor_holders_nonneg r l). lia.
  - cbn [doctor_holders]. specialize (IH _ _ H).
    destruct (doctor_holds r z); cbn [Z.b2z]; lia.
Qed.

Lemma release_times_01 t r n s :
  0 <= n <= 1 ->
  release_times t r n s = if n =? 0 then s else do_release t r s.
Proof.
  intros Hn. assert (E : n = 0 \/ n = 1) by lia.
  destruct E; subst; reflexivity.
Qed.

Ltac pool_facts :=
  repeat match goal with
    | H : (_ >? 0) = true |- _ => rewrite Z.gtb_ltb in H; apply Z.ltb_lt in H
    | H : (_ >? 0) = false |- _ => rewrite Z.gtb_ltb in H; apply Z.ltb_ge in H
    end.

Ltac pool_finish :=
  cbn [shared doctorThreads staffBehaviorThread history pool with_pool
         with_queue with_mutex with_running record displayState do_release
         release count map doctorsAvailable nursesAvailable examRoomsAvailable
         ventilatorsAvailable doctor_holds pc_holds vent_holder doctor_pc
         ventilatorAllocated initial_count andb] in *;
  rewrite ?added_app in *;
  cbn [added Resource_eqb] in *;
  rewrite ?andb_true_r, ?andb_false_r in *;
  cbn [Z.b2z] in *;
  pool_facts;
  match goal with
  | IH : _ -> 0 <= _ /\ _ |- _ => destruct IH as [IH0 IH1]; [lia |]
  end;
  repeat first [rewrite int_decr_pos by lia | rewrite int_incr_below by lia];
  split; lia.

Lemma pool_account_initial r : pool_account initial_world r.
Proof. unfold pool_account. destruct r; simpl; intros _; split; lia. Qed.

Lemma pool_account_step a w w' r :
  control_inv w -> pool_account w r -> step a w = Some w' -> pool_account w' r.
Proof.
  intros (_ & _ & _ & Hnd & Hnn & Hnr & _) IH Hs Hb.
  unfold pool_account, holders in *.
  assert (HMIN : INT_MIN <= 0) by (unfold INT_MIN; lia).
  destruct w as [s ds ar rg st mn].
  pose proof (doctor_holders_nonneg r ds) as Hnonneg.
  pose proof (added_nonneg r (history s)) as Hadd.
  assert (Hstaff : 0 <= staff_holds r st) by (destruct r, st; simpl; lia).
  destruct a as [i | rnd b | r1 r2 r3 | |]; cbn [step shared doctorThreads
    patientThread resourceThread staffBehaviorThread mainThread] in Hs.
  - destruct (nth_error ds i) as [d |] eqn:Ei; [| discriminate].
    destruct (treatPatient i d s) as [[d' s'] |] eqn:Et; [| discriminate].
    inversion Hs; subst; clear Hs.
    cbn [shared doctorThreads staffBehaviorThread] in *.
    rewrite (doctor_holders_replace_nth r d' _ _ _ Ei).
    pose proof (doctor_holders_ge r _ _ _ Ei) as Hge.
    destruct d as [pc cur va].
    unfold treatPatient, do_acquire, acquire, do_try_acquire, try_acquire in Et.
    cbn [doctor_pc currentPatient ventilatorAllocated] in Et.
    destruct pc; break_ifs Et; try discriminate; inversion Et; subst; clear Et;
      destruct r; try destruct va; pool_finish.
  - unfold patientArrival, addPatient in Hs. destruct ar as [pc pid].
    cbn [arrival_pc patientId] in Hs.
    destruct pc; break_ifs Hs; try discriminate; inversion Hs; subst; clear Hs;
      destruct r; pool_finish.
  - unfold dynamicResourceGeneration in Hs. destruct rg as [pc nd nn nr].
    cbn [resource_pc newDoctors newNurses newExamRooms] in *.
    destruct pc; break_ifs Hs; try discriminate; inversion Hs; subst; clear Hs;
      rewrite ?release_times_01 in * by assumption;
      repeat match goal with
        | H : context [?n =? 0] |- _ => destruct (Z.eqb_spec n 0)
        | |- context [?n =? 0] => destruct (Z.eqb_spec n 0)
        end;
      destruct r; pool_finish.
  - unfold staffBehavior, do_try_acquire, try_acquire in Hs.
    destruct st; break_ifs Hs; try discriminate; inversion Hs; subst; clear Hs;
      destruct r; cbn [staff_holds] in *; pool_finish.
  - unfold main in Hs.
    destruct mn; break_ifs Hs; try discriminate; inversion Hs; subst; clear Hs;
      destruct r; pool_finish.
Qed.

Lemma reachable_pool_account w r : reachable w -> pool_account w r.
Proof.
  revert w. apply (reachable_ind (fun w => pool_account w r)).
  - apply pool_account_initial.
  - intros a w0 w1 Hr H0 Hs.
    apply (pool_account_step a w0 w1 r); try assumption.
    now apply reachable_control_inv.
Qed.

(** In every reachable state, and for each of the four pools as long as its
    initial count plus the units [dynamicResourceGeneration] has added fits
    an [int]: the semaphore count plus the units the threads hold equals the
    initial count plus the units added.  So the count is never negative and
    never above initial plus added. *)
Theorem pool_books_balance (w : World) (r : Resource) :
  reachable w ->
  initial_count r + added r (history (shared w)) <= INT_MAX ->
  available (pool r (shared w)) + holders r w
  = initial_count r + added r (history (shared w))
  /\ 0 <= available (pool r (shared w))
       <= initial_count r + added r (history (shared w)).
Proof.
  intros Hr Hb. destruct (reachable_pool_account w r Hr Hb) as [H0 H1].
  unfold available. split; [exact H1 |].
  pose proof (doctor_holders_nonneg r (doctorThreads w)).
  assert (0 <= staff_holds r (staffBehaviorThread w))
    by (destruct r, (staffBehaviorThread w); simpl; lia).
  unfold holders in H1. lia.
Qed.

Lemma pool_books_balance_witness :
  exists w,
    run growth_schedule initial_world = Some w
    /\ added Doctors (history (shared w)) = 1
    /\ holders Doctors w = 3
    /\ available (pool Doctors (shared w)) + holders Doctors w = 3 + 1.
Proof.
  eexists. split; [vm_compute; reflexivity |].
  split; [vm_compute; reflexivity |]. split; [vm_compute; reflexivity |].
  match goal with
  | |- available (pool Doctors (shared ?w)) + _ = _ =>
      apply (pool_books_balance w Doctors)
  end.
  - exists growth_schedule. vm_compute. reflexivity.
  - vm_compute. discriminate.
Defined.

(** ** After the flag is cleared, thread by thread *)

Lemma dequeued_by_app t h h' :
  dequeued_by t (h ++ h') = dequeued_by t h ++ dequeued_by t h'.
Proof. unfold dequeued_by. apply flat_map_app. Qed.

Lemma dequeued_by_quiet t new : all_quiet new -> dequeued_by t new = [].
Proof.
  induction 1 as [| [t0 e] new H _ IH]; [reflexivity |].
  unfold dequeued_by in *. simpl in *. rewrite IH.
  destruct e; try reflexivity; discriminate.
Qed.

Lemma treatPatient_stopped_thread i j d s d' s' :
  isRunning s = false ->
  treatPatient j d s = Some (d', s') ->
  (List.length (dequeued_by (DoctorThread i) (history s'))
   + (if Nat.eqb j i then waiting d' else 0)
   <= List.length (dequeued_by (DoctorThread i) (history s))
      + (if Nat.eqb j i then waiting d else 0))%nat.
Proof.
  intros Hrun Hs. destruct d as [pc cur va].
  unfold treatPatient, do_acquire, acquire, do_try_acquire, try_acquire in Hs.
  cbn [doctor_pc currentPatient ventilatorAllocated] in Hs.
  unfold waiting. rewrite Hrun in Hs.
  destruct pc; cbn [doctor_pc]; break_ifs Hs; try discriminate;
    inversion Hs; subst; clear Hs;
    cbn [doctor_pc history record with_pool with_queue displayState do_release
           map];
    rewrite ?dequeued_by_app, ?length_app;
    unfold dequeued_by; cbn [flat_map fst snd Thread_eqb app List.length];
    destruct (Nat.eqb j i); cbn [app List.length]; lia.
Qed.

Lemma step_stopped_thread i a w w' :
  isRunning (shared w) = false ->
  step a w = Some w' ->
  (thread_potential i w' <= thread_potential i w)%nat.
Proof.
  intros Hrun Hs. unfold thread_potential.
  destruct a as [j | rnd b | r1 r2 r3 | |].
  1: { simpl in Hs.
       destruct (nth_error (doctorThreads w) j) as [d |] eqn:Ej; [| discriminate].
       destruct (treatPatient j d (shared w)) as [[d' s'] |] eqn:Et; [| discriminate].
       inversion Hs; subst; clear Hs. cbn [shared doctorThreads].
       pose proof (treatPatient_stopped_thread i _ _ _ _ _ Hrun Et) as H.
       destruct (Nat.eqb_spec j i) as [-> | Hne].
       - rewrite (nth_error_replace_nth_eq _ _ _ _ Ej), Ej. exact H.
       - rewrite nth_error_replace_nth_neq by exact Hne. lia. }
  all: match type of Hs with
       | step ?a _ = _ =>
           assert (Ha : forall i, a <> RunDoctor i) by (intros k; discriminate);
           destruct (env_step a w w' Ha Hs) as (Hds & _ & new & Hnew & _ & Hq)
       end;
       rewrite Hds, Hnew, dequeued_by_app, (dequeued_by_quiet _ _ Hq),
         app_nil_r; lia.
Qed.

Lemma run_stopped_thread i sched : forall w w',
  isRunning (shared w) = false ->
  run sched w = Some w' ->
  (thread_potential i w' <= thread_potential i w)%nat.
Proof.
  induction sched as [| a sched IH]; intros w w' Hrun Hs; simpl in Hs.
  - inversion Hs; subst. lia.
  - destruct (step a w) as [w1 |] eqn:E; [| discriminate].
    destruct (step_stopped _ _ _ Hrun E) as [H1 _].
    pose proof (step_stopped_thread i _ _ _ Hrun E).
    pose proof (IH _ _ H1 Hs). lia.
Qed.

(** Once [isRunning] is false, under every schedule each doctor thread
    dequeues at most one more patient; from a reachable state that makes at
    most three more patients in all. *)
Theorem each_doctor_takes_at_most_one_more (w : World) (sched : list Action)
    (w' : World) :
  isRunning (shared w) = false ->
  run sched w = Some w' ->
  (forall i,
      (List.length (dequeued_by (DoctorThread i) (history (shared w')))
       <= List.length (dequeued_by (DoctorThread i) (history (shared w))) + 1)%nat)
  /\ (reachable w ->
      (List.length (dequeued_patients (history (shared w')))
       <= List.length (dequeued_patients (history (shared w))) + 3)%nat).
Proof.
  intros Hrun Hs. split.
  - intros i. pose proof (run_stopped_thread i _ _ _ Hrun Hs) as H.
    unfold thread_potential in H.
    assert (Hw : (match nth_error (doctorThreads w) i with
                  | Some d => waiting d
                  | None => 0
                  end <= 1)%nat).
    { destruct (nth_error (doctorThreads w) i) as [d |]; [| lia].
      unfold waiting. destruct (doctor_pc d); lia. }
    lia.
  - intros Hr. exact (at_most_one_more_patient_per_doctor w sched w' Hr Hrun Hs).
Qed.

Lemma each_doctor_takes_at_most_one_more_witness :
  exists w w',
    run stop_while_waiting initial_world = Some w
    /\ isRunning (shared w) = false
    /\ run (repeat (RunDoctor 0) 13) w = Some w'
    /\ List.length (dequeued_by (DoctorThread 0) (history (shared w))) = 0%nat
    /\ List.length (dequeued_by (DoctorThread 0) (history (shared w'))) = 1%nat
    /\ (List.length (dequeued_by (DoctorThread 0) (history (shared w')))
        <= List.length (dequeued_by (DoctorThread 0) (history (shared w))) + 1)%nat.
Proof.
  eexists. eexists.
  split; [vm_compute; reflexivity |].
  split; [reflexivity |].
  match goal with
  | |- run ?sch ?w = Some ?w' /\ _ =>
      assert (Hrun : run sch w = Some w') by (vm_compute; reflexivity);
      split; [exact Hrun |];
      split; [vm_compute; reflexivity |];
      split; [vm_compute; reflexivity |];
      apply (each_doctor_takes_at_most_one_more w sch w');
        [reflexivity | exact Hrun]
  end.
Defined.

(** ** What the doctor threads report *)






(** ** Where a doctor thread can wait *)



(** ** Names, and the choice [top] has *)

Lemma reachable_well_named w :
  reachable w -> Forall well_named (pushed_patients (history (shared w))).
Proof.
  revert w.
  apply (reachable_ind
           (fun w => Forall well_named (pushed_patients (history (shared w))))).
  - constructor.
  - intros a w0 w1 _ H0 Hs.
    destruct (step_queue_effect a w0 w1 Hs) as (new & Hnew & Hcase).
    rewrite Hnew, pushed_patients_app. apply Forall_app. split; [exact H0 |].
    destruct Hcase as [(_ & _ & Hno) | [(t & p & -> & _)
                                       | (x & e & -> & He & _ & _ & _ & Hn)]].
    + rewrite (no_queue_events_pushed _ Hno). constructor.
    + constructor.
    + unfold pushed_patients, no_queue_event in *. simpl in *.
      destruct e; try contradiction; (constructor; [exact Hn | constructor]).
Qed.

(** Every patient [patientArrival] pushes is named Patient_ followed by its
    own id or by the id plus one: the call reads [patientId] and increments
    it in the same argument list, in either order. *)
Theorem patient_names_follow_ids (w : World) (p : Patient) :
  reachable w ->
  In p (pushed_patients (history (shared w))) ->
  name p = ("Patient_" ++ to_string (id p))%string
  \/ name p = ("Patient_" ++ to_string (int_incr (id p)))%string.
Proof.
  intros Hr Hin. pose proof (reachable_well_named w Hr) as H.
  rewrite Forall_forall in H. exact (H p Hin).
Qed.

Lemma patient_names_follow_ids_witness :
  exists w,
    run (repeat (RunPatientArrival 0 true) 3) initial_world = Some w
    /\ pushed_patients (history (shared w)) = [mkPatient 1 "Patient_2" HIGH]
    /\ (name (mkPatient 1 "Patient_2" HIGH)
        = ("Patient_" ++ to_string (id (mkPatient 1 "Patient_2" HIGH)))%string
        \/ name (mkPatient 1 "Patient_2" HIGH)
           = ("Patient_"
              ++ to_string (int_incr (id (mkPatient 1 "Patient_2" HIGH))))%string).
Proof.
  eexists.
  match goal with
  | |- run ?sch ?w0 = Some ?w /\ _ =>
      assert (Hrun : run sch w0 = Some w) by (vm_compute; reflexivity);
      assert (Hr : reachable w) by (exists sch; exact Hrun);
      split; [exact Hrun |]
  end.
  match goal with
  | |- ?l = [?p] /\ _ =>
      assert (Hp : l = [p]) by (vm_compute; reflexivity);
      split; [exact Hp |];
      apply (patient_names_follow_ids _ p Hr)
  end.
  rewrite Hp. now left.
Defined.

Lemma reachable_queue_keys w :
  reachable w ->
  Z.of_nat (List.length (pushed_patients (history (shared w)))) <= INT_MAX ->
  NoDup (map queue_key (patientQueue (shared w))).
Proof.
  intros Hr Hn. destruct (reachable_queue_inv w Hr) as [(_ & Hids & Hperm) _].
  assert (Hnd : NoDup (map id (pushed_patients (history (shared w))))).
  { rewrite Hids.
    rewrite (map_ext_in _ (fun k => 1 + Z.of_nat k)).
    - apply NoDup_arrival_numbers.
    - intros k Hk. apply in_seq in Hk. apply int_wrap_id.
      unfold int_range, INT_MIN, INT_MAX in *. lia. }
  apply NoDup_ids_keys.
  apply (Permutation_map id) in Hperm.
  apply (Permutation_NoDup Hperm) in Hnd.
  rewrite map_app in Hnd. now apply NoDup_app_remove_l in Hnd.
Qed.

(** As long as fewer than 2^31 patients have arrived, the comparator leaves
    [top] no choice: a queued patient that [ComparePatient] puts below no
    other queued patient is the one the next doctor thread dequeues. *)
Theorem next_patient_is_determined (w : World) (x : Patient) :
  reachable w ->
  Z.of_nat (List.length (pushed_patients (history (shared w)))) <= INT_MAX ->
  In x (patientQueue (shared w)) ->
  (forall y, In y (patientQueue (shared w)) -> ComparePatient x y = false) ->
  pq_top (patientQueue (shared w)) = Some x.
Proof.
  intros Hr Hn Hx Hmax.
  apply pq_top_determined; [now apply reachable_queue_keys | exact Hx | exact Hmax].
Qed.

Lemma next_patient_is_determined_witness :
  exists w,
    run (arrive 2 ++ arrive 0) initial_world = Some w
    /\ patientQueue (shared w)
       = [mkPatient 1 "Patient_1" LOW; mkPatient 2 "Patient_2" HIGH]
    /\ pq_top (patientQueue (shared w)) = Some (mkPatient 2 "Patient_2" HIGH).
Proof.
  eexists.
  match goal with
  | |- run ?sch ?w0 = Some ?w /\ _ =>
      assert (Hrun : run sch w0 = Some w) by (vm_compute; reflexivity);
      assert (Hr : reachable w) by (exists sch; exact Hrun);
      split; [exact Hrun |]
  end.
  match goal with
  | |- ?l = ?q /\ _ =>
      assert (Hq : l = q) by (vm_compute; reflexivity);
      split; [exact Hq |]
  end.
  apply (next_patient_is_determined _ _ Hr).
  - vm_compute. discriminate.
  - rewrite Hq. simpl. auto.
  - rewrite Hq. intros y [<- | [<- | []]]; reflexivity.
Defined.

(** ** One round of [dynamicResourceGeneration] *)

(** One round of [dynamicResourceGeneration] that finds the mutex free and
    pools below [INT_MAX] takes five steps, adds [rand() % 2] units to each
    of the doctor, nurse and exam room pools, and leaves the ventilator
    pool, the queue and the flag as they were and the mutex free; when all
    three draws are even nothing is released and nothing is printed. *)
Theorem resource_round_effect (r1 r2 r3 : Z) (g : ResourceGen) (s : Shared) :
  resource_pc g = ResLock ->
  queueMutex s = false ->
  0 <= r1 -> 0 <= r2 -> 0 <= r3 ->
  (forall r, INT_MIN <= count (pool r s) < INT_MAX) ->
  exists g' s',
    resource_steps 5 r1 r2 r3 g s = Some (g', s')
    /\ resource_pc g' = ResLoopHead
    /\ available (doctorsAvailable s') = available (doctorsAvailable s) + r1 mod 2
    /\ available (nursesAvailable s') = available (nursesAvailable s) + r2 mod 2
    /\ available (examRoomsAvailable s')
       = available (examRoomsAvailable s) + r3 mod 2
    /\ ventilatorsAvailable s' = ventilatorsAvailable s
    /\ patientQueue s' = patientQueue s
    /\ queueMutex s' = false
    /\ isRunning s' = isRunning s
    /\ (r1 mod 2 = 0 -> r2 mod 2 = 0 -> r3 mod 2 = 0 -> history s' = history s).
Proof.
  intros Hpc Hm H1 H2 H3 Hc. destruct g as [pc nd nn nr].
  cbn [resource_pc] in Hpc. subst pc.
  pose proof (Hc Doctors) as Hd. pose proof (Hc Nurses) as Hn.
  pose proof (Hc ExamRooms) as Hr. cbn [pool] in Hd, Hn, Hr.
  assert (E1 : Z.rem r1 2 = r1 mod 2) by (apply Z.rem_mod_nonneg; lia).
  assert (E2 : Z.rem r2 2 = r2 mod 2) by (apply Z.rem_mod_nonneg; lia).
  assert (E3 : Z.rem r3 2 = r3 mod 2) by (apply Z.rem_mod_nonneg; lia).
  assert (B1 : r1 mod 2 = 0 \/ r1 mod 2 = 1)
    by (pose proof (Z.mod_pos_bound r1 2); lia).
  assert (B2 : r2 mod 2 = 0 \/ r2 mod 2 = 1)
    by (pose proof (Z.mod_pos_bound r2 2); lia).
  assert (B3 : r3 mod 2 = 0 \/ r3 mod 2 = 1)
    by (pose proof (Z.mod_pos_bound r3 2); lia).
  cbn [resource_steps]. unfold dynamicResourceGeneration at 1.
  cbn [resource_pc]. rewrite Hm.
  replace (r1 <? 0) with false by (symmetry; apply Z.ltb_ge; lia).
  replace (r2 <? 0) with false by (symmetry; apply Z.ltb_ge; lia).
  replace (r3 <? 0) with false by (symmetry; apply Z.ltb_ge; lia).
  cbn [orb]. rewrite E1, E2, E3.
  destruct s as [q m [cd] [cn] [cr] sv rn h].
  cbn [count doctorsAvailable nursesAvailable examRoomsAvailable] in Hd, Hn, Hr.
  destruct B1 as [-> | ->], B2 as [-> | ->], B3 as [-> | ->];
    (eexists; eexists; split; [reflexivity |]);
    cbn; rewrite ?(int_incr_below cd), ?(int_incr_below cn),
           ?(int_incr_below cr) by lia;
    repeat split; try lia; try discriminate.
Qed.

Lemma resource_round_effect_witness :
  exists g' s',
    resource_steps 5 1 0 1 (mkResourceGen ResLock 0 0 0) initial_shared
    = Some (g', s')
    /\ available (doctorsAvailable s') = 4
    /\ available (nursesAvailable s') = 2
    /\ available (examRoomsAvailable s') = 3.
Proof.
  destruct (resource_round_effect 1 0 1 (mkResourceGen ResLock 0 0 0)
              initial_shared)
    as (g' & s' & Hs & _ & Hd & Hn & Hr & _).
  - reflexivity.
  - reflexivity.
  - lia.
  - lia.
  - lia.
  - intros r. unfold INT_MIN, INT_MAX. destruct r; simpl; lia.
  - exists g', s'. split; [exact Hs |].
    rewrite Hd, Hn, Hr. repeat split.
Defined.
